(** * The asynchronous call execution core of the Arwen VM host

    A shallow embedding of [arwen/host/execution_async_context.go] and a
    verification of the statements made about it.

    Conventions.
    - A Go [uint64] is a [Z] in [[0, 2^64)]; every arithmetic operation
      that can leave the range is followed by [wrap64].  A Go [int] is a
      [Z] wrapped by [wrapInt].
    - A Go [[]byte] is a [list byte]; a Go [string] is a [string].
    - A Go [error] is an [option Error] ([None] is [nil]); a pointer that
      may be [nil] is an [option].
    - The collaborators of the host (runtime, metering, output, storage,
      blockchain hook, argument parser, bytecode executor) are Go
      interfaces; they form the class [VMHost] over an abstract state. *)

From Stdlib Require Import ZArith Lia List String Bool.
From Stdlib.Strings Require Import Byte.
From stdpp Require Import base option list.
Import ListNotations.
Open Scope string_scope.
Open Scope list_scope.
Open Scope Z_scope.

Definition bytes := list byte.

(** ** Machine integers *)

Definition wrap64 (z : Z) : Z := z mod 2 ^ 64.

Definition isUint64 (z : Z) : Prop := 0 <= z < 2 ^ 64.

(** Go's [int] on the 64-bit targets the host is built for. *)
Definition wrapInt (z : Z) : Z := (z + 2 ^ 63) mod 2 ^ 64 - 2 ^ 63.

Definition isInt (z : Z) : Prop := - 2 ^ 63 <= z < 2 ^ 63.

(** [len] of a slice or of a string, as a Go [int]. *)
Definition len {A} (l : list A) : Z := Z.of_nat (List.length l).

Definition lenString (s : string) : Z := Z.of_nat (String.length s).

(** ** [math/big]: the two conversions the host uses *)

(** [big.NewInt(0).SetBytes(b)]: [b] read as a big-endian natural. *)
Definition bigSetBytes (b : bytes) : Z :=
  fold_left (fun acc x => acc * 256 + Z.of_N (Byte.to_N x)) b 0.

Definition byteOfZ (z : Z) : byte :=
  match Byte.of_N (Z.to_N (z mod 256)) with
  | Some b => b
  | None => x00
  end.

Fixpoint bigBytesAux (fuel : nat) (n : Z) (acc : bytes) : bytes :=
  match fuel with
  | O => acc
  | S fuel' =>
      if n =? 0 then acc
      else bigBytesAux fuel' (n / 256) (byteOfZ n :: acc)
  end.

(** [big.NewInt(z).Bytes()]: the absolute value of [z] as a big-endian
    byte string without leading zero bytes (empty for zero). *)
Definition bigBytes (z : Z) : bytes :=
  bigBytesAux (Z.to_nat (Z.log2 (Z.abs z)) + 1) (Z.abs z) [].

(** ** Package [vmcommon] *)

Module vmcommon.

(** [type ReturnCode int], with [Ok] its zero value. *)
Definition ReturnCodeT := Z.
Definition Ok : ReturnCodeT := 0.

Inductive CallTypeT := DirectCall | AsynchronousCall | AsynchronousCallBack.

Record VMOutput := mkVMOutput {
  ReturnData : list bytes;
  ReturnCode : ReturnCodeT;
  ReturnMessage : string;
  GasRemaining : Z
}.

Record ContractCallInput := mkContractCallInput {
  CallerAddr : bytes;
  Arguments : list bytes;
  CallValue : Z;
  CallType : CallTypeT;
  GasPrice : Z;
  GasProvided : Z;
  CurrentTxHash : bytes;
  OriginalTxHash : bytes;
  PrevTxHash : bytes;
  RecipientAddr : bytes;
  Function : string
}.

End vmcommon.

(** ** Package [arwen] *)

Module arwen.

Inductive Error :=
| ErrNotEnoughGas
| ErrExternal (msg : string).

Inductive AsyncCallStatus := Pending | ResolvedOk | ResolvedFailed.

Inductive AsyncCallExecutionMode := SyncExecution | AsyncBuiltinFunc | AsyncUnknown.

Record AsyncCall := mkAsyncCall {
  Status : AsyncCallStatus;
  Destination : bytes;
  Data : bytes;
  GasLimit : Z;
  GasLocked : Z;
  ValueBytes : bytes;
  ProvidedGas : Z;
  CallbackName : string
}.

Definition setStatus (s : AsyncCallStatus) (c : AsyncCall) : AsyncCall :=
  mkAsyncCall s (Destination c) (Data c) (GasLimit c) (GasLocked c)
              (ValueBytes c) (ProvidedGas c) (CallbackName c).

Definition setGasLimit (g : Z) (c : AsyncCall) : AsyncCall :=
  mkAsyncCall (Status c) (Destination c) (Data c) g (GasLocked c)
              (ValueBytes c) (ProvidedGas c) (CallbackName c).

Definition isPending (c : AsyncCall) : bool :=
  match Status c with Pending => true | _ => false end.

(** Modelled from the spec: [AsyncCall.UpdateStatus] is absent; the call
    state machine sets the status to ResolvedOk or ResolvedFailed from
    the return code. *)
Definition UpdateStatus (returnCode : vmcommon.ReturnCodeT) (c : AsyncCall) : AsyncCall :=
  if returnCode =? vmcommon.Ok then setStatus ResolvedOk c
  else setStatus ResolvedFailed c.

Record AsyncCallGroup := mkAsyncCallGroup {
  Callback : string;
  Identifier : string;
  AsyncCalls : list AsyncCall
}.

Definition setAsyncCalls (calls : list AsyncCall) (g : AsyncCallGroup) : AsyncCallGroup :=
  mkAsyncCallGroup (Callback g) (Identifier g) calls.

(** Modelled from the spec: [AsyncCallGroup.IsCompleted] is absent; the
    data model states that a group is completed iff every call has a
    status other than Pending. *)
Definition groupIsCompleted (g : AsyncCallGroup) : bool :=
  forallb (fun c => negb (isPending c)) (AsyncCalls g).

(** Modelled from the spec: [AsyncCallGroup.DeleteCompletedAsyncCalls]
    is absent; the group executor removes completed calls from the
    group, keeping the pending ones in their order. *)
Definition DeleteCompletedAsyncCalls (g : AsyncCallGroup) : AsyncCallGroup :=
  setAsyncCalls (List.filter isPending (AsyncCalls g)) g.

(** The context as a value: the groups in their stored order. *)
Record AsyncContext := mkAsyncContext {
  CallerAddr : bytes;
  AsyncCallGroups : list AsyncCallGroup
}.

(** Modelled from the spec: [AsyncContext.IsCompleted] is absent; the
    context is completed when it has no groups. *)
Definition contextIsCompleted (ctx : AsyncContext) : bool :=
  match AsyncCallGroups ctx with [] => true | _ => false end.

(** Modelled from the spec: [CustomStorageKey] is absent; the storage
    key is the prefix followed by the hash, by byte concatenation. *)
Definition CustomStorageKey (prefix hash : bytes) : bytes := prefix ++ hash.

End arwen.

Module math.

(** Modelled from the spec: [math.AddUint64] is absent; an overflow in
    the accumulation is an error, and that error is NotEnoughGas. *)
Definition AddUint64 (a b : Z) : arwen.Error + Z :=
  if 2 ^ 64 <=? a + b then inl arwen.ErrNotEnoughGas else inr (a + b).

End math.

(** ** The host and its collaborators *)

(** A record appended to the output by [output.Transfer]. *)
Record TransferRecord := mkTransfer {
  trDestination : bytes;
  trSender : bytes;
  trGasLimit : Z;
  trGasLocked : Z;
  trValue : Z;
  trData : bytes;
  trCallType : vmcommon.CallTypeT
}.

(** The calls a driver frame issues to the collaborators that change
    state, in the order it issues them. *)
Inductive Event :=
| EvExecuteOnDestContext (input : vmcommon.ContractCallInput)
| EvTransfer (t : TransferRecord)
| EvUseGas (gas : Z)
| EvFailExecution (err : arwen.Error)
| EvSetGasProvided (gas : Z)
| EvSetReturnMessage (msg : string)
| EvFinish (data : bytes)
| EvSetStorage (key value : bytes)
| EvGroupCallback (group : arwen.AsyncCallGroup).

(** The interfaces [host.Runtime()], [host.Metering()], [host.Output()],
    [host.Storage()], [host.Blockchain()], [host.CallArgsParser()] and the
    executor [host.ExecuteOnDestContext], over the state [W] they share.
    The two constants of package [arwen] and the gas schedule entries are
    fields as well. *)
Class VMHost (W : Type) := {
  (* runtime *)
  GetSCAddress : W -> bytes;
  GetCurrentTxHash : W -> bytes;
  GetOriginalTxHash : W -> bytes;
  GetPrevTxHash : W -> bytes;
  GetVMInputGasPrice : W -> Z;
  SetVMInputGasProvided : Z -> W -> W;
  FailExecution : arwen.Error -> W -> W;
  (* metering *)
  GasLeft : W -> Z;
  UseGas : Z -> W -> W;
  AsyncCallStep : Z;
  DataCopyPerByte : Z;
  (* blockchain hook *)
  GetShardOfAddress : W -> bytes -> Z;
  (* argument parser and built-in registry *)
  ParseData : string -> arwen.Error + string * list bytes;
  IsBuiltinFunctionName : string -> bool;
  (* output *)
  Transfer : TransferRecord -> W -> option arwen.Error * W;
  CreateVMOutputInCaseOfError : arwen.Error -> W -> vmcommon.VMOutput;
  SetReturnMessage : string -> W -> W;
  Finish : bytes -> W -> W;
  ReturnCodeString : vmcommon.ReturnCodeT -> string;
  (* storage *)
  SetStorage : bytes -> bytes -> W -> option arwen.Error * W;
  (* the executor: it returns a VMOutput, never nil, and an error *)
  ExecuteOnDestContext :
    vmcommon.ContractCallInput -> W -> vmcommon.VMOutput * option arwen.Error * W;
  (* encoding/json *)
  Marshal : arwen.AsyncContext -> arwen.Error + bytes;
  (* constants of package arwen *)
  AsyncDataPrefix : bytes;
  LegacyAsyncCallGroupID : string
}.

(** The state a driver frame runs in: the collaborators' state and the
    calls issued so far. *)
Record Host (W : Type) := mkHost {
  world : W;
  trace : list Event
}.
Arguments mkHost {W}.
Arguments world {W}.
Arguments trace {W}.

(** Host code: a state transformer that may panic ([None]), which in the
    code at hand happens by dereferencing a nil pointer. *)
Definition M (W A : Type) : Type := Host W -> option (A * Host W).

Definition ret {W A} (a : A) : M W A := fun h => Some (a, h).

Definition bind {W A B} (m : M W A) (k : A -> M W B) : M W B :=
  fun h => match m h with
           | Some (a, h') => k a h'
           | None => None
           end.

Definition panic {W A} : M W A := fun _ => None.

(** Read the collaborators' state. *)
Definition reads {W A} (f : W -> A) : M W A := fun h => Some (f (world h), h).

(** Call a collaborator that only changes state, and record the call. *)
Definition call_ {W} (e : Event) (f : W -> W) : M W unit :=
  fun h => Some (tt, mkHost (f (world h)) (trace h ++ [e])).

(** Call a collaborator that changes state and answers, and record it. *)
Definition call {W A} (e : Event) (f : W -> A * W) : M W A :=
  fun h => let '(a, w) := f (world h) in Some (a, mkHost w (trace h ++ [e])).

Declare Scope host_scope.
Delimit Scope host_scope with host.
Notation "'let*' x ':=' m 'in' k" := (bind m (fun x => k))
  (at level 10, x pattern, m at level 100, k at level 200) : host_scope.
Notation "m ';;' k" := (bind m (fun _ => k))
  (at level 100, k at level 200, right associativity) : host_scope.
Open Scope host_scope.

(** ** [execution_async_context.go] *)

Import vmcommon arwen.

Definition modeEqb (a b : AsyncCallExecutionMode) : bool :=
  match a, b with
  | SyncExecution, SyncExecution => true
  | AsyncBuiltinFunc, AsyncBuiltinFunc => true
  | AsyncUnknown, AsyncUnknown => true
  | _, _ => false
  end.

(** The length the Data field would have, were it of the form
    [callback@arg1@arg4...]. *)
Definition computeDataLengthFromArguments (function : string) (arguments : list bytes) : Z :=
  let numSeparators := len arguments in
  let dataLength := wrapInt (lenString function + numSeparators) in
  fold_left (fun dataLength element => wrapInt (dataLength + len element))
            arguments dataLength.

(** *** The gas allocator *)

(** The body of the first pair of loops of [setupAsyncCallsGas], over the
    calls of one group.  The accumulator is [(gasNeeded, callsWithZeroGas)];
    the calls come back as the loop leaves them, also when it returns
    an error. *)
Fixpoint sumProvidedGas (gasLeft : Z) (calls : list AsyncCall) (acc : Z * Z)
  : list AsyncCall * (Error + Z * Z) :=
  match calls with
  | [] => ([], inr acc)
  | asyncCall :: rest =>
      let '(gasNeeded, callsWithZeroGas) := acc in
      match math.AddUint64 gasNeeded (ProvidedGas asyncCall) with
      | inl err => (asyncCall :: rest, inl err)
      | inr gasNeeded =>
          if gasNeeded >? gasLeft then (asyncCall :: rest, inl ErrNotEnoughGas)
          else if ProvidedGas asyncCall =? 0 then
            let '(rest', r) :=
              sumProvidedGas gasLeft rest (gasNeeded, wrap64 (callsWithZeroGas + 1)) in
            (asyncCall :: rest', r)
          else
            let '(rest', r) := sumProvidedGas gasLeft rest (gasNeeded, callsWithZeroGas) in
            (setGasLimit (ProvidedGas asyncCall) asyncCall :: rest', r)
      end
  end.

Fixpoint sumProvidedGasGroups (gasLeft : Z) (groups : list AsyncCallGroup) (acc : Z * Z)
  : list AsyncCallGroup * (Error + Z * Z) :=
  match groups with
  | [] => ([], inr acc)
  | group :: rest =>
      match sumProvidedGas gasLeft (AsyncCalls group) acc with
      | (calls, inl err) => (setAsyncCalls calls group :: rest, inl err)
      | (calls, inr acc') =>
          let '(rest', r) := sumProvidedGasGroups gasLeft rest acc' in
          (setAsyncCalls calls group :: rest', r)
      end
  end.

(** The second pair of loops. *)
Definition shareGas (gasShare : Z) (groups : list AsyncCallGroup) : list AsyncCallGroup :=
  map (fun group =>
         setAsyncCalls
           (map (fun asyncCall =>
                   if ProvidedGas asyncCall =? 0 then setGasLimit gasShare asyncCall
                   else asyncCall)
                (AsyncCalls group))
           group)
      groups.

(** [setupAsyncCallsGas] on the groups the context holds, given the
    metering balance. *)
Definition allocateGas (gasLeft : Z) (groups : list AsyncCallGroup)
  : list AsyncCallGroup * option Error :=
  match sumProvidedGasGroups gasLeft groups (0, 0) with
  | (groups', inl err) => (groups', Some err)
  | (groups', inr (gasNeeded, callsWithZeroGas)) =>
      if callsWithZeroGas =? 0 then (groups', None)
      else if gasLeft <=? gasNeeded then (groups', Some ErrNotEnoughGas)
      else
        let gasShare := (gasLeft - gasNeeded) / callsWithZeroGas in
        (shareGas gasShare groups', None)
  end.

Section Host.

Context {W : Type} `{VMHost W}.

(** *** The execution-mode classifier *)

Definition determineExecutionMode (destination data : bytes) (w : W)
  : AsyncCallExecutionMode * option Error :=
  match ParseData (string_of_list_byte data) with
  | inl err => (AsyncUnknown, Some err)
  | inr (functionName, _) =>
      let shardOfSC := GetShardOfAddress w (GetSCAddress w) in
      let shardOfDest := GetShardOfAddress w destination in
      let sameShard := shardOfSC =? shardOfDest in
      if sameShard then (SyncExecution, None)
      else if IsBuiltinFunctionName functionName then (AsyncBuiltinFunc, None)
      else (AsyncUnknown, None)
  end.

Definition determineAsyncCallExecutionMode (asyncCall : AsyncCall) (w : W)
  : AsyncCallExecutionMode * option Error :=
  determineExecutionMode (Destination asyncCall) (Data asyncCall) w.

(** *** The call input builders *)

Definition createSyncCallInput (asyncCall : AsyncCall) (w : W)
  : Error + ContractCallInput :=
  let sender := GetSCAddress w in
  match ParseData (string_of_list_byte (Data asyncCall)) with
  | inl err => inl err
  | inr (function, arguments) =>
      let gasLimit := GasLimit asyncCall in
      let gasToUse := AsyncCallStep in
      if gasLimit <=? gasToUse then inl ErrNotEnoughGas
      else
        let gasLimit := wrap64 (gasLimit - gasToUse) in
        inr {| vmcommon.CallerAddr := sender;
               Arguments := arguments;
               CallValue := bigSetBytes (ValueBytes asyncCall);
               CallType := AsynchronousCall;
               GasPrice := GetVMInputGasPrice w;
               GasProvided := gasLimit;
               CurrentTxHash := GetCurrentTxHash w;
               OriginalTxHash := GetOriginalTxHash w;
               PrevTxHash := GetPrevTxHash w;
               RecipientAddr := Destination asyncCall;
               Function := function |}
  end.

(** The arguments handed to the callback: the return code first, then
    the return data or the return message. *)
Definition callbackArguments (vmOutput : VMOutput) (destinationErr : option Error)
  : list bytes :=
  let arguments := [bigBytes (ReturnCode vmOutput)] in
  match destinationErr with
  | None => arguments ++ ReturnData vmOutput
  | Some _ => arguments ++ [list_byte_of_string (ReturnMessage vmOutput)]
  end.

(** The fee [gasToUse] of a callback whose data has the given length. *)
Definition callbackGasToUse (dataLength : Z) : Z :=
  let gasToUse := AsyncCallStep in
  wrap64 (gasToUse + wrap64 (DataCopyPerByte * wrap64 dataLength)).

Definition createSyncCallbackInput (asyncCall : AsyncCall) (vmOutput : VMOutput)
    (destinationErr : option Error) (w : W) : Error + ContractCallInput :=
  let arguments := callbackArguments vmOutput destinationErr in
  let callbackFunction := CallbackName asyncCall in
  let gasLimit := wrap64 (GasRemaining vmOutput + GasLocked asyncCall) in
  let dataLength := computeDataLengthFromArguments callbackFunction arguments in
  let gasToUse := callbackGasToUse dataLength in
  if gasLimit <=? gasToUse then inl ErrNotEnoughGas
  else
    let gasLimit := wrap64 (gasLimit - gasToUse) in
    inr {| vmcommon.CallerAddr := Destination asyncCall;
           Arguments := arguments;
           CallValue := 0;
           CallType := AsynchronousCallBack;
           GasPrice := GetVMInputGasPrice w;
           GasProvided := gasLimit;
           CurrentTxHash := GetCurrentTxHash w;
           OriginalTxHash := GetOriginalTxHash w;
           PrevTxHash := GetPrevTxHash w;
           RecipientAddr := GetSCAddress w;
           Function := callbackFunction |}.

(** *** Running a call and its callback *)

Definition executeOnDestContext (input : ContractCallInput)
  : M W (VMOutput * option Error) :=
  call (EvExecuteOnDestContext input) (ExecuteOnDestContext input).

(** The VMOutput is a pointer: [None] is nil. *)
Definition executeSyncCall (asyncCall : AsyncCall)
  : M W (option VMOutput * option Error) :=
  let* r := reads (createSyncCallInput asyncCall) in
  match r with
  | inl err => ret (None, Some err)
  | inr destinationCallInput =>
      let* (vmOutput, err) := executeOnDestContext destinationCallInput in
      ret (Some vmOutput, err)
  end.

Definition executeSyncCallback (asyncCall : AsyncCall) (vmOutput : VMOutput)
    (err : option Error) : M W (option VMOutput * option Error) :=
  let* r := reads (createSyncCallbackInput asyncCall vmOutput err) in
  match r with
  | inl err => ret (None, Some err)
  | inr callbackInput =>
      let* (vmOutput, err) := executeOnDestContext callbackInput in
      ret (Some vmOutput, err)
  end.

Definition finishSyncExecution (vmOutput : option VMOutput) (err : option Error)
  : M W unit :=
  match err with
  | None => ret tt
  | Some e =>
      call_ (EvSetGasProvided 0) (SetVMInputGasProvided 0);;
      let* vmOutput :=
        match vmOutput with
        | None => reads (CreateVMOutputInCaseOfError e)
        | Some o => ret o
        end in
      call_ (EvSetReturnMessage (ReturnMessage vmOutput))
            (SetReturnMessage (ReturnMessage vmOutput));;
      let code := list_byte_of_string (ReturnCodeString (ReturnCode vmOutput)) in
      call_ (EvFinish code) (Finish code);;
      let* txHash := reads GetCurrentTxHash in
      call_ (EvFinish txHash) (Finish txHash)
  end.

(** *** The cross-shard emitter *)

Definition sendAsyncCallCrossShard (asyncCall : AsyncCall) : M W (option Error) :=
  let* sender := reads GetSCAddress in
  let t := {| trDestination := Destination asyncCall;
              trSender := sender;
              trGasLimit := GasLimit asyncCall;
              trGasLocked := GasLocked asyncCall;
              trValue := bigSetBytes (ValueBytes asyncCall);
              trData := Data asyncCall;
              trCallType := AsynchronousCall |} in
  let* err := call (EvTransfer t) (Transfer t) in
  match err with
  | Some e =>
      let* gasLeft := reads GasLeft in
      call_ (EvUseGas gasLeft) (UseGas gasLeft);;
      call_ (EvFailExecution e) (FailExecution e);;
      ret (Some e)
  | None => ret None
  end.

(** *** The per-call executor *)

(** The call is a pointer in the source; the executor returns the call as
    it leaves it, next to the error. *)
Definition executeAsyncCall (asyncCall : AsyncCall) (syncExecutionOnly : bool)
  : M W (AsyncCall * option Error) :=
  let* (execMode, err) := reads (determineAsyncCallExecutionMode asyncCall) in
  match err with
  | Some e => ret (asyncCall, Some e)
  | None =>
    if modeEqb execMode SyncExecution then
      let* (vmOutput, err) := executeSyncCall asyncCall in
      match vmOutput with
      | None => panic
      | Some vmOutput =>
          let asyncCall := UpdateStatus (ReturnCode vmOutput) asyncCall in
          let* (callbackVMOutput, callbackErr) :=
            executeSyncCallback asyncCall vmOutput err in
          finishSyncExecution callbackVMOutput callbackErr;;
          ret (asyncCall, None)
      end
    else if syncExecutionOnly then ret (asyncCall, None)
    else if modeEqb execMode AsyncBuiltinFunc then
      let* (vmOutput, err) := executeSyncCall asyncCall in
      match err with
      | Some e => ret (asyncCall, Some e)
      | None =>
          match vmOutput with
          | None => panic
          | Some vmOutput =>
              if negb (ReturnCode vmOutput =? Ok) then
                let asyncCall := UpdateStatus (ReturnCode vmOutput) asyncCall in
                let* (callbackVMOutput, callbackErr) :=
                  executeSyncCallback asyncCall vmOutput err in
                finishSyncExecution callbackVMOutput callbackErr;;
                ret (asyncCall, None)
              else ret (asyncCall, None)
          end
      end
    else if modeEqb execMode AsyncUnknown then
      let* err := sendAsyncCallCrossShard asyncCall in
      ret (asyncCall, err)
    else ret (asyncCall, None)
  end.

(** *** The group executor *)

(** The reserved hook: it does nothing and returns nil.  Its invocation
    is recorded, so that it can be told apart from no invocation. *)
Definition executeAsyncCallGroupCallback (group : AsyncCallGroup) : M W (option Error) :=
  call_ (EvGroupCallback group) (fun w => w);;
  ret None.

(** The loop of [executeAsyncCallGroup] over the calls of the group. *)
Fixpoint executeAsyncCalls (calls : list AsyncCall) (syncExecutionOnly : bool)
  : M W (list AsyncCall * option Error) :=
  match calls with
  | [] => ret ([], None)
  | asyncCall :: rest =>
      let* (asyncCall', err) := executeAsyncCall asyncCall syncExecutionOnly in
      match err with
      | Some e => ret (asyncCall' :: rest, Some e)
      | None =>
          let* (rest', err) := executeAsyncCalls rest syncExecutionOnly in
          ret (asyncCall' :: rest', err)
      end
  end.

Definition executeAsyncCallGroup (group : AsyncCallGroup) (syncExecutionOnly : bool)
  : M W (AsyncCallGroup * option Error) :=
  let* (calls, err) := executeAsyncCalls (AsyncCalls group) syncExecutionOnly in
  let group := setAsyncCalls calls group in
  match err with
  | Some e => ret (group, Some e)
  | None =>
      let group := DeleteCompletedAsyncCalls group in
      if groupIsCompleted group then
        let* err := executeAsyncCallGroupCallback group in
        ret (group, err)
      else ret (group, None)
  end.

(** *** The context in memory *)

(** [AsyncCallGroups] is a slice of pointers.  The group objects are kept
    by address, and the slice lists addresses; a [range] loop walks the
    addresses the slice held when the loop began, whatever is deleted
    from the slice meanwhile. *)
Record AsyncContextRef := mkRef {
  refCallerAddr : bytes;
  groupObjects : list AsyncCallGroup;
  groupSlice : list nat
}.

Definition setObjects (objs : list AsyncCallGroup) (r : AsyncContextRef) :=
  mkRef (refCallerAddr r) objs (groupSlice r).

Definition setSlice (slice : list nat) (r : AsyncContextRef) :=
  mkRef (refCallerAddr r) (groupObjects r) slice.

(** The groups the slice refers to, in its order. *)
Definition groupsOf (r : AsyncContextRef) : list AsyncCallGroup :=
  omap (fun p => groupObjects r !! p) (groupSlice r).

(** The context a reference stands for. *)
Definition contextOf (r : AsyncContextRef) : AsyncContext :=
  mkAsyncContext (refCallerAddr r) (groupsOf r).

(** A context freshly placed in memory: group [i] at address [i]. *)
Definition newRef (ctx : AsyncContext) : AsyncContextRef :=
  mkRef (arwen.CallerAddr ctx) (AsyncCallGroups ctx)
        (seq 0 (List.length (AsyncCallGroups ctx))).

(** Write groups back to the addresses the slice lists. *)
Definition storeGroups (groups : list AsyncCallGroup) (r : AsyncContextRef)
  : AsyncContextRef :=
  setObjects
    (fold_left (fun objs pg => <[fst pg := snd pg]> objs)
               (combine (groupSlice r) groups) (groupObjects r))
    r.

(** Modelled from the spec: [AsyncContext.DeleteAsyncCallGroup] is absent;
    it deletes the group at the given index from the context.  The index
    is taken in the slice as it is when the call is made, and an index
    past the end deletes nothing.  The first sweep passes the index of
    its [range] loop, which counts in the slice as the loop found it:
    once a group has been deleted the two differ, and which groups a
    sweep leaves depends on this deletion. *)
Definition DeleteAsyncCallGroup (index : nat) (r : AsyncContextRef) : AsyncContextRef :=
  setSlice (delete index (groupSlice r)) r.

Fixpoint deleteByID (objs : list AsyncCallGroup) (groupID : string) (slice : list nat)
  : list nat :=
  match slice with
  | [] => []
  | p :: rest =>
      match objs !! p with
      | Some group =>
          if String.eqb (Identifier group) groupID then rest
          else p :: deleteByID objs groupID rest
      | None => p :: deleteByID objs groupID rest
      end
  end.

(** Modelled from the spec: [AsyncContext.DeleteAsyncCallGroupByID] is
    absent; it deletes the group with the given identifier, of which the
    data model allows one at most. *)
Definition DeleteAsyncCallGroupByID (groupID : string) (r : AsyncContextRef)
  : AsyncContextRef :=
  setSlice (deleteByID (groupObjects r) groupID (groupSlice r)) r.

(** *** The gas allocator, on the context in memory *)

Definition setupAsyncCallsGas (r : AsyncContextRef) : M W (AsyncContextRef * option Error) :=
  let* gasLeft := reads GasLeft in
  let '(groups, err) := allocateGas gasLeft (groupsOf r) in
  ret (storeGroups groups r, err).

(** *** The persistence codec *)

Definition saveAsyncContext (r : AsyncContextRef) : M W (option Error) :=
  if len (groupSlice r) =? 0 then ret None
  else
    let* prevTxHash := reads GetPrevTxHash in
    let asyncCallStorageKey := CustomStorageKey AsyncDataPrefix prevTxHash in
    match Marshal (contextOf r) with
    | inl err => ret (Some err)
    | inr data =>
        let* err := call (EvSetStorage asyncCallStorageKey data)
                         (SetStorage asyncCallStorageKey data) in
        match err with
        | Some e => ret (Some e)
        | None => ret None
        end
    end.

(** *** The context driver *)

(** [if err != nil { return err }] after a step that leaves the context
    as its first component. *)
Definition andThen {S T} (m : M W (S * option Error))
    (k : S -> M W (T * option Error)) (onErr : S -> T) : M W (T * option Error) :=
  let* (s, err) := m in
  match err with
  | Some e => ret (onErr s, Some e)
  | None => k s
  end.

(** The first sweep: [range] over the addresses in [snapshot], with
    [groupIndex] the index of the iteration. *)
Fixpoint sweepSync (snapshot : list nat) (groupIndex : nat) (r : AsyncContextRef)
  : M W (AsyncContextRef * option Error) :=
  match snapshot with
  | [] => ret (r, None)
  | p :: rest =>
      match groupObjects r !! p with
      | None => panic
      | Some group =>
          let* (group', err) := executeAsyncCallGroup group true in
          let r := setObjects (<[p := group']> (groupObjects r)) r in
          match err with
          | Some e => ret (r, Some e)
          | None =>
              let r := if groupIsCompleted group' then DeleteAsyncCallGroup groupIndex r
                       else r in
              sweepSync rest (S groupIndex) r
          end
      end
  end.

(** The second sweep. *)
Fixpoint sweepAsync (snapshot : list nat) (r : AsyncContextRef)
  : M W (AsyncContextRef * option Error) :=
  match snapshot with
  | [] => ret (r, None)
  | p :: rest =>
      match groupObjects r !! p with
      | None => panic
      | Some group =>
          let* (group', err) := executeAsyncCallGroup group false in
          let r := setObjects (<[p := group']> (groupObjects r)) r in
          match err with
          | Some e => ret (r, Some e)
          | None => sweepAsync rest r
          end
      end
  end.

Definition executeCurrentAsyncContextRef (asyncContext : AsyncContextRef)
  : M W (AsyncContextRef * option Error) :=
  if contextIsCompleted (contextOf asyncContext) then ret (asyncContext, None)
  else
    andThen (setupAsyncCallsGas asyncContext) (fun asyncContext =>
    andThen (sweepSync (groupSlice asyncContext) 0 asyncContext) (fun asyncContext =>
    andThen (setupAsyncCallsGas asyncContext) (fun asyncContext =>
    andThen (sweepAsync (groupSlice asyncContext) asyncContext) (fun asyncContext =>
      let asyncContext := DeleteAsyncCallGroupByID LegacyAsyncCallGroupID asyncContext in
      let* err := saveAsyncContext asyncContext in
      ret (asyncContext, err)) id) id) id) id.

(** The driver on a context given as a value: the context is placed in
    memory, the driver runs, and the context it leaves is read back. *)
Definition executeCurrentAsyncContext (asyncContext : AsyncContext)
  : M W (AsyncContext * option Error) :=
  let* (r, err) := executeCurrentAsyncContextRef (newRef asyncContext) in
  ret (contextOf r, err).

End Host.

(** * Vocabulary of the statements *)

(** The flat encoding named by the comment of
    [computeDataLengthFromArguments]: the function name, then [@] and the
    argument, for each argument. *)
Definition flatEncoding (function : string) (arguments : list bytes) : bytes :=
  list_byte_of_string function ++ flat_map (fun a => "@"%byte :: a) arguments.

(** The sum of the lengths of the arguments. *)
Fixpoint argumentsLength (arguments : list bytes) : Z :=
  match arguments with
  | [] => 0
  | a :: rest => len a + argumentsLength rest
  end.

(** The calls of a context, group after group. *)
Definition allCalls (groups : list AsyncCallGroup) : list AsyncCall :=
  flat_map AsyncCalls groups.

(** The sum of [ProvidedGas] over calls, as a number (no wrap-around). *)
Fixpoint gasNeededOf (calls : list AsyncCall) : Z :=
  match calls with
  | [] => 0
  | c :: rest => ProvidedGas c + gasNeededOf rest
  end.

(** The number of calls with [ProvidedGas = 0]. *)
Fixpoint zeroGasCount (calls : list AsyncCall) : Z :=
  match calls with
  | [] => 0
  | c :: rest => (if ProvidedGas c =? 0 then 1 else 0) + zeroGasCount rest
  end.

(** The same function applied to every call of every group. *)
Definition mapCalls (f : AsyncCall -> AsyncCall) (groups : list AsyncCallGroup)
  : list AsyncCallGroup :=
  map (fun group => setAsyncCalls (map f (AsyncCalls group)) group) groups.

(** What a successful allocation assigns to a call. *)
Definition assignedGas (gasShare : Z) (c : AsyncCall) : AsyncCall :=
  if ProvidedGas c =? 0 then setGasLimit gasShare c
  else setGasLimit (ProvidedGas c) c.

(** What the first pair of loops assigns to a call it visits. *)
Definition assignedProvided (c : AsyncCall) : AsyncCall :=
  if ProvidedGas c =? 0 then c else setGasLimit (ProvidedGas c) c.

(** Two calls that differ in [GasLimit] at most, the second either
    untouched or, if the call names its gas, given its [ProvidedGas]. *)
Definition gasLimitOnly (c c' : AsyncCall) : Prop :=
  c' = c \/ (ProvidedGas c <> 0 /\ c' = setGasLimit (ProvidedGas c) c).

(** Two groups that differ in the [GasLimit] of their calls at most. *)
Definition groupGasLimitOnly (g g' : AsyncCallGroup) : Prop :=
  Identifier g' = Identifier g
  /\ Callback g' = Callback g
  /\ Forall2 gasLimitOnly (AsyncCalls g) (AsyncCalls g').

(** One write of [storeGroups]. *)
Definition insertGroup (objs : list AsyncCallGroup) (pg : nat * AsyncCallGroup) :=
  <[fst pg := snd pg]> objs.

(** A reference whose slice lists addresses of group objects. *)
Definition validRef (r : AsyncContextRef) : Prop :=
  Forall (fun p => (p < List.length (groupObjects r))%nat) (groupSlice r).

(** A reference whose slice lists distinct addresses of group objects. *)
Definition wfRef (r : AsyncContextRef) : Prop :=
  NoDup (groupSlice r) /\ validRef r.

(** What the driver may do to the context in memory: the group at each
    address keeps its identifier, and addresses leave the slice. *)
Definition evolves (r0 r : AsyncContextRef) : Prop :=
  refCallerAddr r = refCallerAddr r0
  /\ map Identifier (groupObjects r) = map Identifier (groupObjects r0)
  /\ groupSlice r `sublist_of` groupSlice r0.

(** The storage writes among events, in order. *)
Definition storageWrites (evs : list Event) : list (bytes * bytes) :=
  flat_map (fun e => match e with
                     | EvSetStorage key value => [(key, value)]
                     | _ => []
                     end) evs.

(** The events the per-call executor can issue. *)
Definition isCallEvent (e : Event) : Prop :=
  match e with
  | EvSetStorage _ _ | EvGroupCallback _ => False
  | _ => True
  end.

(** The events other than a storage write. *)
Definition notStorage (e : Event) : Prop :=
  match e with
  | EvSetStorage _ _ => False
  | _ => True
  end.

(** Host code that, when it returns, has added to the trace only events
    that satisfy [P]. *)
Definition emits {W A} (P : Event -> Prop) (m : M W A) : Prop :=
  forall h a h', m h = Some (a, h') ->
                 exists evs, trace h' = trace h ++ evs /\ Forall P evs.

(** The sum of [GasLimit] over calls, as a number. *)
Fixpoint gasLimitSum (calls : list AsyncCall) : Z :=
  match calls with
  | [] => 0
  | c :: rest => GasLimit c + gasLimitSum rest
  end.

(** Two calls that agree on every field but [GasLimit]. *)
Definition sameButGasLimit (c c' : AsyncCall) : Prop :=
  setGasLimit (GasLimit c) c' = c.

(** Two groups with the same identifier and callback whose calls agree,
    one by one, on every field but [GasLimit]. *)
Definition groupSameButGasLimit (g g' : AsyncCallGroup) : Prop :=
  Identifier g' = Identifier g
  /\ Callback g' = Callback g
  /\ Forall2 sameButGasLimit (AsyncCalls g) (AsyncCalls g').

(** Host code whose result, when it returns, satisfies [Q]. *)
Definition returnsOnly {W A} (Q : A -> Prop) (m : M W A) : Prop :=
  forall h a h', m h = Some (a, h') -> Q a.

(** The events of the sweep that allows no cross-shard call: no
    transfer, no gas burnt, no failure mark, no storage write. *)
Definition isSyncEvent (e : Event) : Prop :=
  match e with
  | EvTransfer _ | EvUseGas _ | EvFailExecution _ | EvSetStorage _ _ => False
  | _ => True
  end.

(** Every call of the group is pending. *)
Definition allPending (g : AsyncCallGroup) : Prop :=
  Forall (fun c => Status c = Pending) (AsyncCalls g).

(** ** A small host to run the code on *)

(** The state is the metering balance.  The contract lives at address
    [01]; the shard of an address is its first byte.  Data parses to a
    function name without arguments unless it is empty.  A call that
    moves more than 100 fails with return code 7 and no error. *)
#[export] Instance demoHost : VMHost Z := {|
  GetSCAddress := fun _ => [x01];
  GetCurrentTxHash := fun _ => [x63];
  GetOriginalTxHash := fun _ => [x6f];
  GetPrevTxHash := fun _ => [x70];
  GetVMInputGasPrice := fun _ => 1;
  SetVMInputGasProvided := fun _ w => w;
  FailExecution := fun _ w => w;
  GasLeft := fun w => w;
  UseGas := fun gas w => w - gas;
  AsyncCallStep := 10;
  DataCopyPerByte := 1;
  GetShardOfAddress := fun _ addr =>
    match addr with
    | [] => 0
    | b :: _ => Z.of_N (Byte.to_N b)
    end;
  ParseData := fun data =>
    match data with
    | EmptyString => inl (ErrExternal "invalid call data")
    | _ => inr (data, [])
    end;
  IsBuiltinFunctionName := fun name => String.eqb name "ESDTTransfer";
  Transfer := fun _ w => (None, w);
  CreateVMOutputInCaseOfError := fun _ _ =>
    mkVMOutput [] 10 "execution failed" 0;
  SetReturnMessage := fun _ w => w;
  Finish := fun _ w => w;
  ReturnCodeString := fun rc => if rc =? 0 then "ok" else "error";
  SetStorage := fun _ _ w => (None, w);
  ExecuteOnDestContext := fun input w =>
    if vmcommon.CallValue input >? 100
    then (mkVMOutput [[x2a]; [x2b]] 7 "out of funds" (GasProvided input), None, w)
    else (mkVMOutput [] Ok "" (GasProvided input), None, w);
  Marshal := fun ctx =>
    inr (list_byte_of_string (String.concat "," (map Identifier (AsyncCallGroups ctx))));
  AsyncDataPrefix := [x41];
  LegacyAsyncCallGroupID := "LegacyAsync"
|}.

(** A call of the small host: destination, value and gas fields. *)
Definition demoCall (destination : bytes) (data : string) (value : bytes)
    (providedGas gasLimit gasLocked : Z) : AsyncCall :=
  mkAsyncCall Pending destination (list_byte_of_string data) gasLimit gasLocked
              value providedGas "cb".

(** A context of the small host: one group, a call that names its gas
    and a call that leaves it to the allocator. *)
Definition demoContext : AsyncContext :=
  mkAsyncContext [x01]
    [mkAsyncCallGroup "" "group"
       [demoCall [x01] "first" [] 100 0 0; demoCall [x02] "second" [] 0 0 0]].

(** A context with the legacy group, holding a remote call, and a group
    with a remote call and a same-shard call. *)
Definition demoContextMixed : AsyncContext :=
  mkAsyncContext [x01]
    [mkAsyncCallGroup "" "LegacyAsync" [demoCall [x02] "pay" [] 100 0 0];
     mkAsyncCallGroup "" "batch"
       [demoCall [x02] "pay" [] 0 0 0; demoCall [x01] "run" [] 0 0 0]].

(** A context that asks for more gas than a balance of 1000: a call that
    names 5, two calls that name nothing and a call that names 1001. *)
Definition demoContextShort : AsyncContext :=
  mkAsyncContext [x01]
    [mkAsyncCallGroup "" "group"
       [demoCall [x01] "run" [] 5 0 0; demoCall [x01] "run" [] 0 0 0;
        demoCall [x01] "run" [] 0 0 0; demoCall [x02] "pay" [] 1001 0 0]].

(** A context with a call that names 100 and two calls that name
    nothing. *)
Definition demoContextTight : AsyncContext :=
  mkAsyncContext [x01]
    [mkAsyncCallGroup "" "group"
       [demoCall [x02] "pay" [] 100 0 0; demoCall [x01] "run" [] 0 0 0;
        demoCall [x01] "run" [] 0 0 0]].

(** * Verification *)

(** ** Machine integers *)

Lemma wrap64_small z : isUint64 z -> wrap64 z = z.
Proof. unfold isUint64, wrap64. intros Hz. apply Z.mod_small. lia. Qed.

Lemma wrapInt_small z : isInt z -> wrapInt z = z.
Proof.
  unfold isInt, wrapInt. intros Hz.
  rewrite Z.mod_small; lia.
Qed.

Lemma len_nonneg {A} (l : list A) : 0 <= len l.
Proof. unfold len. lia. Qed.

Lemma len_cons {A} (x : A) l : len (x :: l) = 1 + len l.
Proof. unfold len. cbn [List.length]. lia. Qed.

Lemma len_app {A} (l k : list A) : len (l ++ k) = len l + len k.
Proof. unfold len. rewrite List.length_app. lia. Qed.

(** ** The data length of a callback *)

Lemma argumentsLength_nonneg arguments : 0 <= argumentsLength arguments.
Proof.
  induction arguments as [|a l IH]; cbn [argumentsLength]; [lia|].
  pose proof (len_nonneg a). lia.
Qed.

Lemma fold_dataLength arguments : forall start,
  0 <= start ->
  start + argumentsLength arguments < 2 ^ 63 ->
  fold_left (fun dataLength element => wrapInt (dataLength + len element))
            arguments start
  = start + argumentsLength arguments.
Proof.
  induction arguments as [|a l IH]; intros start Hs Hb;
    cbn [argumentsLength fold_left] in *; [lia|].
  pose proof (len_nonneg a). pose proof (argumentsLength_nonneg l).
  rewrite wrapInt_small by (unfold isInt; lia).
  rewrite IH by lia. lia.
Qed.

Lemma lenString_bytes s : lenString s = len (list_byte_of_string s).
Proof.
  unfold lenString, len. f_equal.
  induction s as [|c s IH]; cbn; [reflexivity|]. now rewrite IH.
Qed.

Lemma flatEncoding_length function arguments :
  len (flatEncoding function arguments)
  = lenString function + len arguments + argumentsLength arguments.
Proof.
  unfold flatEncoding. rewrite len_app, <- lenString_bytes.
  induction arguments as [|a l IH]; cbn [flat_map argumentsLength].
  - unfold len; cbn; lia.
  - rewrite len_app, !len_cons. lia.
Qed.

Lemma computeDataLength_exact function arguments :
  lenString function + len arguments + argumentsLength arguments < 2 ^ 63 ->
  computeDataLengthFromArguments function arguments
  = lenString function + len arguments + argumentsLength arguments.
Proof.
  intros Hb. unfold computeDataLengthFromArguments.
  pose proof (len_nonneg arguments). pose proof (argumentsLength_nonneg arguments).
  assert (0 <= lenString function) by (unfold lenString; lia).
  rewrite wrapInt_small by (unfold isInt; lia).
  rewrite fold_dataLength by lia. reflexivity.
Qed.

(** C10 (as amended).  The data length used for the callback fee is
    [len(name) + number of arguments + sum of the argument lengths]; it is
    exactly the length of the flat encoding [name@arg1@...@argn], for
    every argument list, the empty one included.  The fee is
    [AsyncCallStep + DataCopyPerByte * dataLength], and the builder
    charges it: it fails with NotEnoughGas when the available gas does
    not exceed the fee, and hands the callback the difference otherwise. *)
Theorem callback_data_length_and_fee {W} `{VMHost W}
    (function : string) (arguments : list bytes) :
  let dataLength := lenString function + len arguments + argumentsLength arguments in
  let fee := AsyncCallStep + DataCopyPerByte * dataLength in
  dataLength < 2 ^ 63 ->
  isUint64 AsyncCallStep -> isUint64 DataCopyPerByte -> fee < 2 ^ 64 ->
  computeDataLengthFromArguments function arguments = dataLength
  /\ dataLength = len (flatEncoding function arguments)
  /\ callbackGasToUse dataLength = fee
  /\ forall asyncCall vmOutput destinationErr (w : W),
       CallbackName asyncCall = function ->
       callbackArguments vmOutput destinationErr = arguments ->
       let gasLimit := wrap64 (GasRemaining vmOutput + GasLocked asyncCall) in
       (gasLimit <= fee ->
        createSyncCallbackInput asyncCall vmOutput destinationErr w
        = inl ErrNotEnoughGas)
       /\ (fee < gasLimit ->
           exists input,
             createSyncCallbackInput asyncCall vmOutput destinationErr w = inr input
             /\ GasProvided input = gasLimit - fee
             /\ Function input = function
             /\ Arguments input = arguments).
Proof.
  intros dataLength fee Hlen HA HD Hfee.
  assert (Hd0 : 0 <= dataLength).
  { subst dataLength. pose proof (len_nonneg arguments).
    pose proof (argumentsLength_nonneg arguments).
    unfold lenString. lia. }
  assert (HDL : computeDataLengthFromArguments function arguments = dataLength)
    by (apply computeDataLength_exact; exact Hlen).
  assert (Hgas : callbackGasToUse dataLength = fee).
  { unfold callbackGasToUse, isUint64 in *.
    rewrite (wrap64_small dataLength) by (unfold isUint64; lia).
    assert (0 <= DataCopyPerByte * dataLength) by nia.
    rewrite (wrap64_small (DataCopyPerByte * dataLength)) by (unfold isUint64; subst fee; lia).
    apply wrap64_small. unfold isUint64. subst fee. lia. }
  split; [exact HDL|]. split; [symmetry; apply flatEncoding_length|].
  split; [exact Hgas|].
  intros asyncCall vmOutput destinationErr w Hname Hargs gasLimit.
  unfold createSyncCallbackInput. rewrite Hname, Hargs, HDL, Hgas.
  fold gasLimit. split.
  - intros Hle. apply Z.leb_le in Hle. now rewrite Hle.
  - intros Hlt. assert (Hnle : (gasLimit <=? fee) = false) by (apply Z.leb_gt; lia).
    rewrite Hnle. eexists. split; [reflexivity|]. cbn.
    split; [|split; reflexivity].
    apply wrap64_small. unfold isUint64.
    assert (gasLimit < 2 ^ 64) by (subst gasLimit; unfold wrap64; apply Z.mod_pos_bound; lia).
    unfold isUint64 in *. nia.
Qed.

Lemma callback_data_length_and_fee_witness :
  computeDataLengthFromArguments "cb" [[x07]; [x2a]] = 6
  /\ callbackGasToUse (W := Z) 6 = 16.
Proof.
  assert (Hw := callback_data_length_and_fee (W := Z) "cb" [[x07]; [x2a]]).
  cbv zeta in Hw.
  destruct Hw as (H1 & _ & H3 & _).
  - vm_compute. reflexivity.
  - unfold isUint64. cbn. lia.
  - unfold isUint64. cbn. lia.
  - vm_compute. reflexivity.
  - split; [exact H1 | exact H3].
Defined.

(** C10 as stated fails: with no arguments the data length is the length
    of the flat encoding, not one more. *)
Lemma callback_data_length_no_overcount :
  computeDataLengthFromArguments "cb" [] = len (flatEncoding "cb" [])
  /\ ~ (computeDataLengthFromArguments "cb" [] = len (flatEncoding "cb" []) + 1).
Proof. split; [reflexivity | vm_compute; discriminate]. Qed.

(** ** The gas allocator *)

Lemma gasNeededOf_nonneg calls :
  Forall (fun c => isUint64 (ProvidedGas c)) calls -> 0 <= gasNeededOf calls.
Proof.
  induction 1 as [|c l Hc _ IH]; cbn [gasNeededOf]; [lia|].
  unfold isUint64 in Hc. lia.
Qed.

Lemma gasNeededOf_app l k : gasNeededOf (l ++ k) = gasNeededOf l + gasNeededOf k.
Proof. induction l as [|c l IH]; cbn [gasNeededOf app]; lia. Qed.

Lemma zeroGasCount_app l k : zeroGasCount (l ++ k) = zeroGasCount l + zeroGasCount k.
Proof. induction l as [|c l IH]; cbn [zeroGasCount app]; lia. Qed.

Lemma zeroGasCount_bounds calls : 0 <= zeroGasCount calls <= len calls.
Proof.
  induction calls as [|c l IH]; cbn [zeroGasCount]; [unfold len; cbn; lia|].
  rewrite len_cons. destruct (ProvidedGas c =? 0); lia.
Qed.


(** The first pair of loops on the calls of one group: it goes through
    exactly when the sum fits in the balance. *)
Lemma sumProvidedGas_spec gasLeft calls : forall gasNeeded zeroes,
  isUint64 gasLeft ->
  Forall (fun c => isUint64 (ProvidedGas c)) calls ->
  0 <= gasNeeded <= gasLeft ->
  0 <= zeroes -> zeroes + len calls < 2 ^ 64 ->
  (gasNeeded + gasNeededOf calls <= gasLeft ->
   sumProvidedGas gasLeft calls (gasNeeded, zeroes)
   = (map assignedProvided calls,
      inr (gasNeeded + gasNeededOf calls, zeroes + zeroGasCount calls)))
  /\ (gasLeft < gasNeeded + gasNeededOf calls ->
      exists calls',
        sumProvidedGas gasLeft calls (gasNeeded, zeroes) = (calls', inl ErrNotEnoughGas)
        /\ Forall2 gasLimitOnly calls calls').
Proof.
  induction calls as [|c l IH]; intros gasNeeded zeroes HgL Hall Hg Hz Hzb.
  - cbn [sumProvidedGas gasNeededOf zeroGasCount map]. split.
    + intros _. do 2 f_equal. f_equal; lia.
    + intros Hlt. unfold isUint64 in HgL. cbn in Hlt. lia.
  - apply Forall_cons in Hall as [Hc Hl].
    pose proof (gasNeededOf_nonneg l Hl) as Hl0.
    rewrite len_cons in Hzb. pose proof (len_nonneg l).
    unfold isUint64 in Hc, HgL.
    cbn [sumProvidedGas gasNeededOf zeroGasCount map].
    unfold math.AddUint64.
    destruct (2 ^ 64 <=? gasNeeded + ProvidedGas c) eqn:Hov.
    { apply Z.leb_le in Hov. split; [lia|].
      intros _. eexists. split; [reflexivity|].
      apply Forall2_same_length_lookup_2; [reflexivity|].
      intros i x y Hx Hy. left. congruence. }
    apply Z.leb_gt in Hov.
    destruct (gasNeeded + ProvidedGas c >? gasLeft) eqn:Hgt.
    { apply Z.gtb_lt in Hgt. split; [lia|].
      intros _. eexists. split; [reflexivity|].
      apply Forall2_same_length_lookup_2; [reflexivity|].
      intros i x y Hx Hy. left. congruence. }
    assert (Hle : gasNeeded + ProvidedGas c <= gasLeft).
    { destruct (Z.gtb_spec (gasNeeded + ProvidedGas c) gasLeft); [discriminate|lia]. }
    unfold assignedProvided at 1.
    destruct (ProvidedGas c =? 0) eqn:Hzero.
    + rewrite wrap64_small by (unfold isUint64; lia).
      destruct (IH (gasNeeded + ProvidedGas c) (zeroes + 1)) as [IHok IHerr];
        try (unfold isUint64; lia); try assumption.
      split.
      * intros Hfit. rewrite IHok by lia. do 2 f_equal. f_equal; lia.
      * intros Hlt. destruct IHerr as (calls' & Heq & Hrel); [lia|].
        rewrite Heq. eexists. split; [reflexivity|].
        constructor; [now left | exact Hrel].
    + destruct (IH (gasNeeded + ProvidedGas c) zeroes) as [IHok IHerr];
        try (unfold isUint64; lia); try assumption.
      split.
      * intros Hfit. rewrite IHok by lia. do 2 f_equal. f_equal; lia.
      * intros Hlt. destruct IHerr as (calls' & Heq & Hrel); [lia|].
        rewrite Heq. eexists. split; [reflexivity|].
        constructor; [|exact Hrel].
        right. split; [apply Z.eqb_neq; exact Hzero | reflexivity].
Qed.

Lemma gasLimitOnly_assignedProvided calls :
  Forall2 gasLimitOnly calls (map assignedProvided calls).
Proof.
  induction calls as [|c l IH]; cbn [map]; constructor; [|exact IH].
  unfold gasLimitOnly, assignedProvided.
  destruct (ProvidedGas c =? 0) eqn:Hzero; [now left|].
  right. split; [apply Z.eqb_neq; exact Hzero | reflexivity].
Qed.

Lemma groupGasLimitOnly_refl groups : Forall2 groupGasLimitOnly groups groups.
Proof.
  induction groups as [|g l IH]; constructor; [|exact IH].
  repeat split. induction (AsyncCalls g); constructor; [now left | assumption].
Qed.

Lemma groupGasLimitOnly_assignedProvided groups :
  Forall2 groupGasLimitOnly groups (mapCalls assignedProvided groups).
Proof.
  induction groups as [|g l IH]; cbn [mapCalls map]; constructor; [|exact IH].
  repeat split. cbn. apply gasLimitOnly_assignedProvided.
Qed.

(** The first pair of loops on all the groups. *)
Lemma sumProvidedGasGroups_spec gasLeft groups : forall gasNeeded zeroes,
  isUint64 gasLeft ->
  Forall (fun c => isUint64 (ProvidedGas c)) (allCalls groups) ->
  0 <= gasNeeded <= gasLeft ->
  0 <= zeroes -> zeroes + len (allCalls groups) < 2 ^ 64 ->
  (gasNeeded + gasNeededOf (allCalls groups) <= gasLeft ->
   sumProvidedGasGroups gasLeft groups (gasNeeded, zeroes)
   = (mapCalls assignedProvided groups,
      inr (gasNeeded + gasNeededOf (allCalls groups),
           zeroes + zeroGasCount (allCalls groups))))
  /\ (gasLeft < gasNeeded + gasNeededOf (allCalls groups) ->
      exists groups',
        sumProvidedGasGroups gasLeft groups (gasNeeded, zeroes)
        = (groups', inl ErrNotEnoughGas)
        /\ Forall2 groupGasLimitOnly groups groups').
Proof.
  induction groups as [|g l IH]; intros gasNeeded zeroes HgL Hall Hg Hz Hzb.
  - cbn. split; [intros _; do 2 f_equal; f_equal; lia | intros Hlt; lia].
  - unfold allCalls in *. cbn [flat_map] in *. fold (allCalls l) in *.
    apply Forall_app in Hall as [Hg1 Hl].
    rewrite len_app in Hzb. rewrite gasNeededOf_app, zeroGasCount_app.
    pose proof (gasNeededOf_nonneg _ Hg1). pose proof (gasNeededOf_nonneg _ Hl).
    pose proof (len_nonneg (AsyncCalls g)). pose proof (len_nonneg (allCalls l)).
    pose proof (zeroGasCount_bounds (AsyncCalls g)).
    destruct (sumProvidedGas_spec gasLeft (AsyncCalls g) gasNeeded zeroes)
      as [Hok Herr]; try assumption; try lia.
    cbn [sumProvidedGasGroups mapCalls map].
    destruct (Z_le_gt_dec (gasNeeded + gasNeededOf (AsyncCalls g)) gasLeft) as [Hfit|Hno].
    + rewrite Hok by exact Hfit.
      destruct (IH (gasNeeded + gasNeededOf (AsyncCalls g))
                   (zeroes + zeroGasCount (AsyncCalls g)))
        as [IHok IHerr]; try assumption; try lia.
      split.
      * intros Hall. rewrite IHok by lia. do 2 f_equal. f_equal; lia.
      * intros Hlt. destruct IHerr as (groups' & Heq & Hrel); [lia|].
        rewrite Heq. eexists. split; [reflexivity|].
        constructor; [|exact Hrel].
        repeat split. cbn. apply gasLimitOnly_assignedProvided.
    + destruct Herr as (calls' & Heq & Hrel); [lia|]. rewrite Heq.
      split; [lia|]. intros _. eexists. split; [reflexivity|].
      constructor; [|apply groupGasLimitOnly_refl].
      repeat split. exact Hrel.
Qed.

Lemma assignedProvided_no_zero s calls :
  zeroGasCount calls = 0 -> map assignedProvided calls = map (assignedGas s) calls.
Proof.
  induction calls as [|c l IH]; cbn [zeroGasCount map]; [reflexivity|].
  pose proof (zeroGasCount_bounds l) as Hb. intros Hz.
  unfold assignedProvided at 1, assignedGas at 1.
  destruct (ProvidedGas c =? 0); [lia|]. rewrite IH by lia. reflexivity.
Qed.

Lemma mapCalls_no_zero s groups :
  zeroGasCount (allCalls groups) = 0 ->
  mapCalls assignedProvided groups = mapCalls (assignedGas s) groups.
Proof.
  induction groups as [|g l IH]; [reflexivity|].
  unfold allCalls. cbn [flat_map mapCalls map]. fold (allCalls l).
  rewrite zeroGasCount_app. intros Hz.
  pose proof (zeroGasCount_bounds (AsyncCalls g)).
  pose proof (zeroGasCount_bounds (allCalls l)).
  rewrite (assignedProvided_no_zero s) by lia.
  unfold mapCalls in IH. rewrite IH by lia. reflexivity.
Qed.

Lemma shareGas_assignedProvided s groups :
  shareGas s (mapCalls assignedProvided groups) = mapCalls (assignedGas s) groups.
Proof.
  unfold shareGas, mapCalls. rewrite map_map. apply map_ext. intros g.
  cbn. unfold setAsyncCalls. cbn. f_equal. rewrite map_map. apply map_ext.
  intros c. unfold assignedProvided, assignedGas.
  destruct (ProvidedGas c =? 0) eqn:Hz; cbn; rewrite ?Hz; reflexivity.
Qed.

Section AllocateGas.

Variables (gasLeft : Z) (groups : list AsyncCallGroup).

Let calls := allCalls groups.
Let gasNeeded := gasNeededOf calls.
Let zeroCount := zeroGasCount calls.

Hypothesis gasLeft_uint64 : isUint64 gasLeft.
Hypothesis provided_uint64 : Forall (fun c => isUint64 (ProvidedGas c)) calls.
Hypothesis calls_countable : len calls < 2 ^ 64.

Lemma allocateGas_ok :
  gasNeeded <= gasLeft -> zeroCount = 0 \/ gasNeeded < gasLeft ->
  allocateGas gasLeft groups
  = (mapCalls (assignedGas ((gasLeft - gasNeeded) / zeroCount)) groups, None).
Proof.
  intros Hfit Hcase. unfold allocateGas.
  destruct (sumProvidedGasGroups_spec gasLeft groups 0 0) as [Hok _];
    try assumption; try (unfold isUint64 in *; lia).
  fold calls in Hok. repeat rewrite Z.add_0_l in Hok. fold gasNeeded zeroCount in Hok.
  rewrite Hok by lia.
  pose proof (zeroGasCount_bounds calls) as Hb. fold zeroCount in Hb.
  destruct (zeroCount =? 0) eqn:Hz.
  - apply Z.eqb_eq in Hz. f_equal. apply mapCalls_no_zero. exact Hz.
  - apply Z.eqb_neq in Hz. destruct Hcase as [Hc|Hc]; [lia|].
    assert (Hle : (gasLeft <=? gasNeeded) = false) by (apply Z.leb_gt; lia).
    rewrite Hle. f_equal. apply shareGas_assignedProvided.
Qed.

Lemma allocateGas_err :
  gasLeft < gasNeeded \/ (0 < zeroCount /\ gasLeft <= gasNeeded) ->
  exists groups',
    allocateGas gasLeft groups = (groups', Some ErrNotEnoughGas)
    /\ Forall2 groupGasLimitOnly groups groups'
    /\ (gasNeeded <= gasLeft -> groups' = mapCalls assignedProvided groups).
Proof.
  intros Hcase. unfold allocateGas.
  destruct (sumProvidedGasGroups_spec gasLeft groups 0 0) as [Hok Herr];
    try assumption; try (unfold isUint64 in *; lia).
  fold calls in Hok, Herr.
  repeat rewrite Z.add_0_l in Hok. repeat rewrite Z.add_0_l in Herr.
  fold gasNeeded zeroCount in Hok, Herr.
  destruct (Z_le_gt_dec gasNeeded gasLeft) as [Hfit|Hno].
  - destruct Hcase as [Hc|[Hz Hc]]; [lia|].
    rewrite Hok by exact Hfit. cbv beta iota.
    assert (Hz0 : (zeroCount =? 0) = false) by (apply Z.eqb_neq; lia).
    assert (Hle : (gasLeft <=? gasNeeded) = true) by (apply Z.leb_le; lia).
    rewrite Hz0, Hle. eexists. split; [reflexivity|].
    split; [apply groupGasLimitOnly_assignedProvided | reflexivity].
  - destruct Herr as (groups' & Heq & Hrel); [lia|]. rewrite Heq.
    exists groups'. split; [reflexivity|]. split; [exact Hrel | lia].
Qed.

End AllocateGas.

(** ** The context in memory *)

Lemma length_foldInsert pgs : forall objs,
  List.length (fold_left insertGroup pgs objs) = List.length objs.
Proof.
  induction pgs as [|pg l IH]; intros objs; cbn [fold_left]; [reflexivity|].
  rewrite IH. unfold insertGroup. apply length_insert.
Qed.

Lemma lookup_foldInsert_notin ps : forall gs objs (p : nat),
  p ∉ ps ->
  fold_left insertGroup (combine ps gs) objs !! p = objs !! p.
Proof.
  induction ps as [|q ps IH]; intros gs objs p Hp; [reflexivity|].
  destruct gs as [|g gs]; [reflexivity|].
  apply not_elem_of_cons in Hp as [Hne Hp].
  cbn [combine fold_left]. rewrite IH by exact Hp.
  unfold insertGroup. cbn. apply list_lookup_insert_ne. congruence.
Qed.

Lemma lookup_foldInsert ps : forall gs objs,
  NoDup ps ->
  Forall (fun p => (p < List.length objs)%nat) ps ->
  List.length gs = List.length ps ->
  Forall2 (fun p g => fold_left insertGroup (combine ps gs) objs !! p = Some g) ps gs.
Proof.
  induction ps as [|p ps IH]; intros gs objs Hnd Hval Hlen;
    destruct gs as [|g gs]; try discriminate; [constructor|].
  apply NoDup_cons in Hnd as [Hp Hnd].
  apply Forall_cons in Hval as [Hlt Hval].
  cbn [combine fold_left]. constructor.
  - rewrite lookup_foldInsert_notin by exact Hp.
    unfold insertGroup. cbn. apply list_lookup_insert_eq. exact Hlt.
  - apply IH; [exact Hnd | | cbn in Hlen; lia].
    unfold insertGroup. cbn. rewrite length_insert. exact Hval.
Qed.

Lemma omap_lookup_exact (objs : list AsyncCallGroup) ps gs :
  Forall2 (fun p g => objs !! p = Some g) ps gs ->
  omap (fun p => objs !! p) ps = gs.
Proof.
  induction 1 as [|p g ps gs Hp _ IH]; [reflexivity|].
  cbn. rewrite Hp. cbn. now rewrite IH.
Qed.

Lemma lookup_valid (objs : list AsyncCallGroup) ps :
  Forall (fun p => (p < List.length objs)%nat) ps ->
  Forall2 (fun p g => objs !! p = Some g) ps (omap (fun p => objs !! p) ps).
Proof.
  induction 1 as [|p ps Hp _ IH]; [constructor|].
  apply lookup_lt_is_Some_2 in Hp as [g Hg].
  cbn. rewrite Hg. cbn. constructor; assumption.
Qed.

Lemma groupsOf_storeGroups r gs :
  wfRef r -> List.length gs = List.length (groupSlice r) ->
  groupsOf (storeGroups gs r) = gs.
Proof.
  intros [Hnd Hval] Hlen. unfold groupsOf, storeGroups. cbn.
  apply omap_lookup_exact. apply (lookup_foldInsert _ _ _ Hnd Hval Hlen).
Qed.

Lemma groupsOf_length r :
  wfRef r -> List.length (groupsOf r) = List.length (groupSlice r).
Proof.
  intros [_ Hval]. symmetry. eapply Forall2_length. apply lookup_valid. exact Hval.
Qed.

Lemma seq_lookup_app (pre l : list AsyncCallGroup) :
  Forall2 (fun p g => (pre ++ l) !! p = Some g) (seq (List.length pre) (List.length l)) l.
Proof.
  revert pre. induction l as [|g l IH]; intros pre; [constructor|].
  cbn [List.length seq]. constructor.
  - rewrite lookup_app_r by lia. now rewrite Nat.sub_diag.
  - specialize (IH (pre ++ [g])). rewrite <- app_assoc in IH. cbn in IH.
    rewrite length_app in IH. cbn in IH.
    replace (List.length pre + 1)%nat with (S (List.length pre)) in IH by lia.
    exact IH.
Qed.

Lemma groupsOf_newRef ctx : groupsOf (newRef ctx) = AsyncCallGroups ctx.
Proof.
  unfold groupsOf, newRef. cbn. apply omap_lookup_exact.
  apply (seq_lookup_app [] (AsyncCallGroups ctx)).
Qed.

Lemma wfRef_newRef ctx : wfRef (newRef ctx).
Proof.
  split; unfold validRef; cbn.
  - apply NoDup_ListNoDup, List.seq_NoDup.
  - apply Forall_forall. intros p Hp. apply list_elem_of_In, in_seq in Hp. lia.
Qed.

Lemma allocateGas_length gasLeft groups :
  List.length (fst (allocateGas gasLeft groups)) = List.length groups.
Proof.
  assert (Hsum : forall gs acc,
             List.length (fst (sumProvidedGasGroups gasLeft gs acc)) = List.length gs).
  { induction gs as [|g l IH]; intros acc; [reflexivity|].
    cbn [sumProvidedGasGroups].
    destruct (sumProvidedGas gasLeft (AsyncCalls g) acc) as [cs [e|acc']]; [reflexivity|].
    specialize (IH acc').
    destruct (sumProvidedGasGroups gasLeft l acc') as [l' r]. cbn in *. now rewrite IH. }
  unfold allocateGas. specialize (Hsum groups (0, 0)).
  destruct (sumProvidedGasGroups gasLeft groups (0, 0)) as [gs [e|[gn zc]]]; cbn in *;
    [exact Hsum|].
  destruct (zc =? 0); [exact Hsum|].
  destruct (gasLeft <=? gn); [exact Hsum|].
  cbn. unfold shareGas. rewrite length_map. exact Hsum.
Qed.




(** ** The per-call executor *)

Section PerCall.

Context {W : Type} `{VMHost W}.

Lemma determine_sync_parses asyncCall w mode :
  determineAsyncCallExecutionMode asyncCall w = (mode, None) ->
  exists function arguments,
    ParseData (string_of_list_byte (Data asyncCall)) = inr (function, arguments).
Proof.
  unfold determineAsyncCallExecutionMode, determineExecutionMode.
  destruct (ParseData (string_of_list_byte (Data asyncCall))) as [e|[f a]];
    [discriminate | eauto].
Qed.

(** With too little gas for the step fee the forward call is not run and
    the VMOutput returned is nil. *)
Lemma executeSyncCall_low_gas asyncCall h mode :
  determineAsyncCallExecutionMode asyncCall (world h) = (mode, None) ->
  GasLimit asyncCall <= AsyncCallStep ->
  executeSyncCall asyncCall h = Some ((None, Some ErrNotEnoughGas), h).
Proof.
  intros Hmode Hgas. destruct (determine_sync_parses _ _ _ Hmode) as (f & a & Hparse).
  unfold executeSyncCall, bind, reads, ret, createSyncCallInput.
  rewrite Hparse. apply Z.leb_le in Hgas. rewrite Hgas. reflexivity.
Qed.

(** With enough gas the forward call runs once and its VMOutput is
    returned. *)
Lemma executeSyncCall_runs asyncCall h input :
  createSyncCallInput asyncCall (world h) = inr input ->
  executeSyncCall asyncCall h
  = Some ((Some (fst (fst (ExecuteOnDestContext input (world h)))),
           snd (fst (ExecuteOnDestContext input (world h)))),
          mkHost (snd (ExecuteOnDestContext input (world h)))
                 (trace h ++ [EvExecuteOnDestContext input])).
Proof.
  intros Hin. unfold executeSyncCall, bind, reads, ret, executeOnDestContext, call.
  rewrite Hin. destruct (ExecuteOnDestContext input (world h)) as [[out e] w].
  reflexivity.
Qed.

(** The per-call executor on a same-shard call that cannot pay the step
    fee: the nil VMOutput is dereferenced. *)
Lemma executeAsyncCall_sync_low_gas asyncCall syncExecutionOnly h :
  determineAsyncCallExecutionMode asyncCall (world h) = (SyncExecution, None) ->
  GasLimit asyncCall <= AsyncCallStep ->
  executeAsyncCall asyncCall syncExecutionOnly h = None.
Proof.
  intros Hmode Hgas. unfold executeAsyncCall, bind at 1, reads at 1.
  rewrite Hmode. cbn [modeEqb]. unfold bind.
  rewrite (executeSyncCall_low_gas _ _ _ Hmode Hgas). reflexivity.
Qed.

(** C7 (as amended).  When the data of a call cannot be parsed the
    classifier fails with the parse error, next to the mode AsyncUnknown,
    and the per-call executor returns that error at once: the call is
    left as it was, nothing is executed and no transfer is emitted. *)
Theorem unparsable_call_is_surfaced asyncCall syncExecutionOnly (h : Host W) err :
  ParseData (string_of_list_byte (Data asyncCall)) = inl err ->
  determineAsyncCallExecutionMode asyncCall (world h) = (AsyncUnknown, Some err)
  /\ executeAsyncCall asyncCall syncExecutionOnly h = Some ((asyncCall, Some err), h).
Proof.
  intros Hparse.
  assert (Hmode : determineAsyncCallExecutionMode asyncCall (world h)
                  = (AsyncUnknown, Some err)).
  { unfold determineAsyncCallExecutionMode, determineExecutionMode.
    now rewrite Hparse. }
  split; [exact Hmode|].
  unfold executeAsyncCall, bind, reads. rewrite Hmode. reflexivity.
Qed.

End PerCall.

Lemma unparsable_call_is_surfaced_witness :
  let c := demoCall [x02] "" [] 0 50 0 in
  executeAsyncCall c false (mkHost 1000 [])
  = Some ((c, Some (ErrExternal "invalid call data")), mkHost 1000 []).
Proof.
  intros c.
  exact (proj2 (unparsable_call_is_surfaced c false (mkHost 1000 [])
                  (ErrExternal "invalid call data") eq_refl)).
Defined.

(** C7 as stated fails: a remote call with unparsable data is not
    forwarded; no transfer is emitted for it. *)
Lemma unparsable_call_not_forwarded :
  let c := demoCall [x02] "" [] 0 50 0 in
  exists err h',
    executeAsyncCall c false (mkHost 1000 []) = Some ((c, Some err), h')
    /\ forall t, ~ In (EvTransfer t) (trace h').
Proof.
  intros c. exists (ErrExternal "invalid call data"), (mkHost 1000 []).
  split; [reflexivity|]. intros t [].
Qed.

(** C3 fails on the code: a same-shard call whose gas limit does not
    exceed the step fee is classified SyncExecution, [executeSyncCall]
    returns a nil VMOutput with NotEnoughGas, and the per-call executor,
    hence the driver, dereferences it. *)
Theorem sync_call_low_gas_nil_output :
  let c := demoCall [x01] "run" [] 10 10 0 in
  let ctx := mkAsyncContext [x01] [mkAsyncCallGroup "" "group" [c]] in
  determineAsyncCallExecutionMode c 1000 = (SyncExecution, None)
  /\ executeSyncCall c (mkHost 1000 []) = Some ((None, Some ErrNotEnoughGas), mkHost 1000 [])
  /\ executeAsyncCall c true (mkHost 1000 []) = None
  /\ executeCurrentAsyncContext ctx (mkHost 1000 []) = None.
Proof.
  intros c ctx.
  assert (Hmode : determineAsyncCallExecutionMode c 1000 = (SyncExecution, None))
    by reflexivity.
  split; [exact Hmode|]. split; [|split].
  - apply (executeSyncCall_low_gas c (mkHost 1000 []) SyncExecution Hmode).
    cbn. lia.
  - apply (executeAsyncCall_sync_low_gas c true (mkHost 1000 []) Hmode).
    cbn. lia.
  - vm_compute. reflexivity.
Qed.

Section Callback.

Context {W : Type} `{VMHost W}.

(** C5 (as amended).  For a same-shard call whose forward call has run
    and whose status has been updated from its return code, if building
    the callback input fails with NotEnoughGas then no callback runs (the
    forward call is the only call to the executor) and the per-call
    executor returns success: [finishSyncExecution] absorbs the error by
    zeroing the gas provided, publishing the return message of a VMOutput
    made from the error, and appending two finish entries, the return
    code as a string and the current transaction hash. *)
Theorem callback_input_failure_is_absorbed
    asyncCall syncExecutionOnly (h : Host W) input vmOutput forwardErr w1 :
  determineAsyncCallExecutionMode asyncCall (world h) = (SyncExecution, None) ->
  createSyncCallInput asyncCall (world h) = inr input ->
  ExecuteOnDestContext input (world h) = (vmOutput, forwardErr, w1) ->
  createSyncCallbackInput (UpdateStatus (ReturnCode vmOutput) asyncCall)
                          vmOutput forwardErr w1
  = inl ErrNotEnoughGas ->
  let w2 := SetVMInputGasProvided 0 w1 in
  let fallback := CreateVMOutputInCaseOfError ErrNotEnoughGas w2 in
  let w3 := SetReturnMessage (ReturnMessage fallback) w2 in
  let code := list_byte_of_string (ReturnCodeString (ReturnCode fallback)) in
  let w4 := Finish code w3 in
  let txHash := GetCurrentTxHash w4 in
  executeAsyncCall asyncCall syncExecutionOnly h
  = Some ((UpdateStatus (ReturnCode vmOutput) asyncCall, None),
          mkHost (Finish txHash w4)
                 (trace h ++ [EvExecuteOnDestContext input;
                              EvSetGasProvided 0;
                              EvSetReturnMessage (ReturnMessage fallback);
                              EvFinish code;
                              EvFinish txHash])).
Proof.
  intros Hmode Hin Hrun Hcb w2 fallback w3 code w4 txHash.
  unfold executeAsyncCall, bind at 1, reads at 1. rewrite Hmode. cbn [modeEqb].
  unfold bind at 1. rewrite (executeSyncCall_runs _ _ _ Hin), Hrun. cbn [fst snd].
  unfold bind at 1, executeSyncCallback, bind at 1, reads at 1. cbn [world].
  rewrite Hcb. unfold ret at 1.
  unfold finishSyncExecution, bind, call_, reads, ret. cbn [world trace].
  repeat rewrite <- app_assoc. reflexivity.
Qed.

(** The remote built-in that fails without an error: the callback is
    built from the return data, the forward error being nil. *)
Lemma remote_builtin_failure_callback
    asyncCall (h : Host W) input vmOutput w1 callbackInput :
  determineAsyncCallExecutionMode asyncCall (world h) = (AsyncBuiltinFunc, None) ->
  createSyncCallInput asyncCall (world h) = inr input ->
  ExecuteOnDestContext input (world h) = (vmOutput, None, w1) ->
  ReturnCode vmOutput <> Ok ->
  createSyncCallbackInput (UpdateStatus (ReturnCode vmOutput) asyncCall)
                          vmOutput None w1
  = inr callbackInput ->
  Arguments callbackInput = bigBytes (ReturnCode vmOutput) :: ReturnData vmOutput
  /\ exists h',
      executeAsyncCall asyncCall false h
      = Some ((UpdateStatus (ReturnCode vmOutput) asyncCall, None), h')
      /\ Status (UpdateStatus (ReturnCode vmOutput) asyncCall) = ResolvedFailed
      /\ exists rest,
          trace h' = trace h ++ EvExecuteOnDestContext input
                             :: EvExecuteOnDestContext callbackInput :: rest.
Proof.
  intros Hmode Hin Hrun Hrc Hcb. split.
  { unfold createSyncCallbackInput in Hcb.
    destruct (_ <=? _) in Hcb; [discriminate|].
    injection Hcb as <-. reflexivity. }
  assert (Hneq : (ReturnCode vmOutput =? Ok) = false) by (apply Z.eqb_neq; exact Hrc).
  unfold executeAsyncCall, bind at 1, reads at 1. rewrite Hmode. cbn [modeEqb].
  unfold bind at 1. rewrite (executeSyncCall_runs _ _ _ Hin), Hrun. cbn [fst snd].
  rewrite Hneq. cbn [negb].
  unfold bind at 1, executeSyncCallback, bind at 1, reads at 1. cbn [world].
  rewrite Hcb. unfold bind at 1, executeOnDestContext, call. cbn [world trace].
  destruct (ExecuteOnDestContext callbackInput w1) as [[cbOut cbErr] w2].
  unfold ret at 1.
  assert (Hstatus : Status (UpdateStatus (ReturnCode vmOutput) asyncCall) = ResolvedFailed)
    by (unfold UpdateStatus; rewrite Hneq; reflexivity).
  destruct cbErr as [e|].
  - unfold finishSyncExecution, bind, call_, reads, ret. cbn [world trace].
    eexists. split; [reflexivity|]. split; [exact Hstatus|].
    cbn [trace]. repeat rewrite <- app_assoc. cbn [app]. eexists. reflexivity.
  - unfold finishSyncExecution, bind, ret.
    eexists. split; [reflexivity|]. split; [exact Hstatus|].
    cbn [trace]. repeat rewrite <- app_assoc. cbn [app]. eexists. reflexivity.
Qed.

End Callback.

Lemma callback_input_failure_is_absorbed_witness :
  let c := demoCall [x01] "run" [] 0 11 0 in
  exists h',
    executeAsyncCall c true (mkHost 1000 []) = Some ((UpdateStatus Ok c, None), h')
    /\ List.length (trace h') = 5%nat.
Proof.
  intros c.
  assert (Hw := callback_input_failure_is_absorbed c true (mkHost 1000 [])
                  (mkContractCallInput [x01] [] 0 AsynchronousCall 1 1 [x63] [x6f] [x70]
                                       [x01] "run")
                  (mkVMOutput [] Ok "" 1) None 1000
                  eq_refl eq_refl eq_refl eq_refl).
  cbv zeta in Hw. eexists. split; [exact Hw | reflexivity].
Defined.

(** C5 as stated fails: the callback input cannot be built for lack of
    gas, and the per-call executor returns success all the same. *)
Lemma callback_input_failure_not_surfaced :
  let c := demoCall [x01] "run" [] 0 11 0 in
  createSyncCallbackInput (UpdateStatus Ok c) (mkVMOutput [] Ok "" 1) None 1000
  = inl ErrNotEnoughGas
  /\ exists h',
      executeAsyncCall c true (mkHost 1000 []) = Some ((UpdateStatus Ok c, None), h')
      /\ ~ executeAsyncCall c true (mkHost 1000 [])
           = Some ((UpdateStatus Ok c, Some ErrNotEnoughGas), h').
Proof.
  intros c. split; [reflexivity|].
  eexists. split; [vm_compute; reflexivity|]. vm_compute. discriminate.
Qed.

(** C6 fails on the code: a remote built-in that returns a code other
    than Ok and no error has its status set to ResolvedFailed, but its
    callback receives the return code followed by the return data, here
    three arguments, and not the return message.  The group executor then
    prunes the call. *)
Theorem remote_builtin_failure_arguments :
  let c := demoCall [x02] "ESDTTransfer" [xc8] 0 1000 0 in
  determineAsyncCallExecutionMode c 5000 = (AsyncBuiltinFunc, None)
  /\ exists c' h' forwardInput callbackInput,
      executeAsyncCall c false (mkHost 5000 []) = Some ((c', None), h')
      /\ Status c' = ResolvedFailed
      /\ trace h' = [EvExecuteOnDestContext forwardInput;
                     EvExecuteOnDestContext callbackInput]
      /\ vmcommon.CallType callbackInput = AsynchronousCallBack
      /\ Arguments callbackInput = [[x07]; [x2a]; [x2b]]
      /\ Arguments callbackInput <> [bigBytes 7; list_byte_of_string "out of funds"]
      /\ exists group' h'',
          executeAsyncCallGroup (mkAsyncCallGroup "" "group" [c]) false (mkHost 5000 [])
          = Some ((group', None), h'')
          /\ AsyncCalls group' = [].
Proof.
  intros c. split; [reflexivity|].
  do 4 eexists. split; [vm_compute; reflexivity|].
  do 4 (split; [reflexivity|]). split; [discriminate|].
  do 2 eexists. split; [vm_compute; reflexivity | reflexivity].
Qed.

(** ** What the executors add to the trace *)

Section Emits.

Context {W : Type} `{VMHost W}.

Lemma emits_ret {A} P (a : A) : emits (W := W) P (ret a).
Proof.
  intros h a' h' [= <- <-]. exists []. split; [now rewrite app_nil_r | constructor].
Qed.

Lemma emits_reads {A} P (f : W -> A) : emits P (reads f).
Proof.
  intros h a' h' [= <- <-]. exists []. split; [now rewrite app_nil_r | constructor].
Qed.

Lemma emits_panic {A} P : emits (W := W) (A := A) P panic.
Proof. intros h a h' [=]. Qed.

Lemma emits_call_ (P : Event -> Prop) e (f : W -> W) : P e -> emits P (call_ e f).
Proof.
  intros He h a h' [= <- <-]. exists [e]. split; [reflexivity | now constructor].
Qed.

Lemma emits_call {A} (P : Event -> Prop) e (f : W -> A * W) : P e -> emits P (call e f).
Proof.
  intros He h a h'. unfold call. destruct (f (world h)) as [a0 w].
  intros [= <- <-]. exists [e]. split; [reflexivity | now constructor].
Qed.

Lemma emits_bind {A B} P (m : M W A) (k : A -> M W B) :
  emits P m -> (forall a, emits P (k a)) -> emits P (bind m k).
Proof.
  intros Hm Hk h b h'. unfold bind.
  destruct (m h) as [[a h1]|] eqn:Em; [|discriminate].
  intros Ek. destruct (Hm _ _ _ Em) as (evs1 & Ht1 & Hp1).
  destruct (Hk a _ _ _ Ek) as (evs2 & Ht2 & Hp2).
  exists (evs1 ++ evs2). split.
  - rewrite Ht2, Ht1. now rewrite app_assoc.
  - apply Forall_app; split; assumption.
Qed.

Lemma emits_mono {A} (P Q : Event -> Prop) (m : M W A) :
  (forall e, P e -> Q e) -> emits P m -> emits Q m.
Proof.
  intros HPQ Hm h a h' Hrun. destruct (Hm _ _ _ Hrun) as (evs & Ht & Hp).
  exists evs. split; [exact Ht|]. eapply Forall_impl; eauto.
Qed.

End Emits.

Ltac emits_step :=
  first
    [ apply emits_ret
    | apply emits_reads
    | apply emits_panic
    | apply emits_call_; exact I
    | apply emits_call; exact I
    | assumption
    | apply emits_bind; [|intros ?]
    | match goal with
      | |- emits _ (match ?x with _ => _ end) => destruct x
      end ].

Section EmitsExecutors.

Context {W : Type} `{VMHost W}.

Lemma emits_executeSyncCall c : emits isCallEvent (executeSyncCall c).
Proof. unfold executeSyncCall, executeOnDestContext. repeat emits_step. Qed.

Lemma emits_executeSyncCallback c out err :
  emits isCallEvent (executeSyncCallback c out err).
Proof. unfold executeSyncCallback, executeOnDestContext. repeat emits_step. Qed.

Lemma emits_finishSyncExecution out err :
  emits isCallEvent (finishSyncExecution out err).
Proof. unfold finishSyncExecution. repeat emits_step. Qed.

Lemma emits_sendAsyncCallCrossShard c :
  emits isCallEvent (sendAsyncCallCrossShard c).
Proof. unfold sendAsyncCallCrossShard. repeat emits_step. Qed.

Lemma emits_executeAsyncCall c syncExecutionOnly :
  emits isCallEvent (executeAsyncCall c syncExecutionOnly).
Proof.
  pose proof emits_executeSyncCall. pose proof emits_executeSyncCallback.
  pose proof emits_finishSyncExecution. pose proof emits_sendAsyncCallCrossShard.
  unfold executeAsyncCall. repeat (emits_step || auto).
Qed.

Lemma emits_executeAsyncCalls calls syncExecutionOnly :
  emits isCallEvent (executeAsyncCalls calls syncExecutionOnly).
Proof.
  induction calls as [|c l IH]; cbn [executeAsyncCalls].
  - apply emits_ret.
  - pose proof (emits_executeAsyncCall c syncExecutionOnly). repeat emits_step.
Qed.

Lemma emits_executeAsyncCallGroup group syncExecutionOnly :
  emits notStorage (executeAsyncCallGroup group syncExecutionOnly).
Proof.
  assert (Hcalls : emits notStorage
                     (executeAsyncCalls (AsyncCalls group) syncExecutionOnly)).
  { eapply emits_mono; [|apply emits_executeAsyncCalls]. now intros []. }
  unfold executeAsyncCallGroup, executeAsyncCallGroupCallback. repeat emits_step.
Qed.

End EmitsExecutors.

(** ** The group executor *)

Section Group.

Context {W : Type} `{VMHost W}.

Lemma callEvents_no_group_callback evs :
  Forall isCallEvent evs -> forall g, ~ In (EvGroupCallback g) evs.
Proof.
  intros Hall g Hin. rewrite List.Forall_forall in Hall. exact (Hall _ Hin).
Qed.

(** C4 (as amended).  The group executor invokes the group-level
    callback exactly when every call of the group was executed without
    error and the group is completed after pruning; the flag
    [syncExecutionOnly] takes no part in it.  The callback is invoked on
    the pruned group. *)
Theorem group_callback_iff_completed
    group syncExecutionOnly (h : Host W) group' err h' :
  executeAsyncCallGroup group syncExecutionOnly h = Some ((group', err), h') ->
  exists calls loopErr h1 evs,
    executeAsyncCalls (AsyncCalls group) syncExecutionOnly h
    = Some ((calls, loopErr), h1)
    /\ trace h' = trace h ++ evs
    /\ ((exists g, In (EvGroupCallback g) evs) <->
        loopErr = None
        /\ groupIsCompleted (DeleteCompletedAsyncCalls (setAsyncCalls calls group)) = true)
    /\ (forall g, In (EvGroupCallback g) evs -> g = group').
Proof.
  intros Hrun. unfold executeAsyncCallGroup, bind at 1 in Hrun.
  destruct (executeAsyncCalls (AsyncCalls group) syncExecutionOnly h)
    as [[[calls loopErr] h1]|] eqn:Eloop; [|discriminate].
  destruct (emits_executeAsyncCalls _ _ _ _ _ Eloop) as (evs1 & Ht1 & Hp1).
  pose proof (callEvents_no_group_callback _ Hp1) as Hno.
  exists calls, loopErr, h1.
  destruct loopErr as [e|].
  - injection Hrun as <- <- <-. exists evs1. split; [reflexivity|].
    split; [exact Ht1|]. split.
    + split; [intros [g Hg]; destruct (Hno g Hg) | intros [[=] _]].
    + intros g Hg. destruct (Hno g Hg).
  - destruct (groupIsCompleted (DeleteCompletedAsyncCalls (setAsyncCalls calls group)))
      eqn:Edone.
    + unfold executeAsyncCallGroupCallback, bind, call_, ret in Hrun.
      injection Hrun as <- <- <-. cbn [trace].
      exists (evs1 ++ [EvGroupCallback (DeleteCompletedAsyncCalls (setAsyncCalls calls group))]).
      split; [reflexivity|]. split; [now rewrite Ht1, app_assoc|]. split.
      * split; [intros _; split; reflexivity|].
        intros _. eexists. apply in_or_app. right. left. reflexivity.
      * intros g Hg. apply in_app_or in Hg as [Hg|[Hg|[]]]; [destruct (Hno g Hg)|].
        congruence.
    + injection Hrun as <- <- <-. exists evs1. split; [reflexivity|].
      split; [exact Ht1|]. split.
      * split; [intros [g Hg]; destruct (Hno g Hg) | intros [_ [=]]].
      * intros g Hg. destruct (Hno g Hg).
Qed.

Lemma executeAsyncCallGroup_identifier group syncExecutionOnly (h : Host W) group' err h' :
  executeAsyncCallGroup group syncExecutionOnly h = Some ((group', err), h') ->
  Identifier group' = Identifier group.
Proof.
  unfold executeAsyncCallGroup, bind at 1.
  destruct (executeAsyncCalls (AsyncCalls group) syncExecutionOnly h)
    as [[[calls loopErr] h1]|]; [|discriminate].
  destruct loopErr as [e|]; [intros [= <- _ _]; reflexivity|].
  destruct (groupIsCompleted _).
  - unfold executeAsyncCallGroupCallback, bind, call_, ret.
    intros [= <- _ _]. reflexivity.
  - intros [= <- _ _]. reflexivity.
Qed.

(** When the group executor returns without error, the calls left in
    the group are the pending ones: a resolved call has been pruned. *)
Lemma executeAsyncCallGroup_prunes group syncExecutionOnly (h : Host W) group' h' :
  executeAsyncCallGroup group syncExecutionOnly h = Some ((group', None), h') ->
  Forall (fun c => Status c = Pending) (AsyncCalls group').
Proof.
  unfold executeAsyncCallGroup, bind at 1.
  destruct (executeAsyncCalls (AsyncCalls group) syncExecutionOnly h)
    as [[[calls loopErr] h1]|]; [|discriminate].
  destruct loopErr as [e|]; [discriminate|].
  assert (Hpruned : Forall (fun c => Status c = Pending)
                      (AsyncCalls (DeleteCompletedAsyncCalls (setAsyncCalls calls group)))).
  { cbn. apply List.Forall_forall. intros c Hc. apply List.filter_In in Hc as [_ Hc].
    unfold isPending in Hc. destruct (Status c); [reflexivity|discriminate..]. }
  destruct (groupIsCompleted _).
  - unfold executeAsyncCallGroupCallback, bind, call_, ret.
    intros [= <- _]. exact Hpruned.
  - intros [= <- _]. exact Hpruned.
Qed.

End Group.

Lemma group_callback_iff_completed_witness :
  let c := demoCall [x01] "run" [] 0 1000 0 in
  let group := mkAsyncCallGroup "" "group" [c] in
  exists evs,
    In (EvGroupCallback (mkAsyncCallGroup "" "group" [])) evs
    /\ forall g, In (EvGroupCallback g) evs -> g = mkAsyncCallGroup "" "group" [].
Proof.
  intros c group.
  eassert (Hrun : executeAsyncCallGroup group true (mkHost 5000 []) = Some (_, _, _))
    by (vm_compute; reflexivity).
  destruct (group_callback_iff_completed _ _ _ _ _ _ Hrun)
    as (calls & loopErr & h1 & evs & _ & Htrace & _ & Honly).
  exists evs. split.
  - cbn [trace app] in Htrace. rewrite <- Htrace. right. right. left. reflexivity.
  - intros g Hg. apply Honly. exact Hg.
Defined.

(** C4 as stated fails: in the second sweep ([syncExecutionOnly] false) a
    group whose only call, a remote built-in, has failed and been pruned
    is completed, and the group-level callback is invoked. *)
Lemma group_callback_invoked_without_syncOnly :
  let c := demoCall [x02] "ESDTTransfer" [xc8] 0 1000 0 in
  let group := mkAsyncCallGroup "" "group" [c] in
  exists group' h',
    executeAsyncCallGroup group false (mkHost 5000 []) = Some ((group', None), h')
    /\ groupIsCompleted group' = true
    /\ In (EvGroupCallback group') (trace h').
Proof.
  intros c group. do 2 eexists. split; [vm_compute; reflexivity|].
  split; [reflexivity|]. right. right. left. reflexivity.
Qed.

(** ** What the allocator leaves behind, whatever its outcome *)

Lemma gasLimitOnly_refl calls : Forall2 gasLimitOnly calls calls.
Proof. induction calls; constructor; [now left | assumption]. Qed.

Lemma sumProvidedGas_touches_gasLimit gasLeft calls : forall acc,
  Forall2 gasLimitOnly calls (fst (sumProvidedGas gasLeft calls acc)).
Proof.
  induction calls as [|c l IH]; intros [gasNeeded zeroes]; [constructor|].
  cbn [sumProvidedGas].
  destruct (math.AddUint64 gasNeeded (ProvidedGas c)) as [e|gasNeeded'];
    [apply gasLimitOnly_refl|].
  destruct (gasNeeded' >? gasLeft); [apply gasLimitOnly_refl|].
  destruct (ProvidedGas c =? 0) eqn:Hzero.
  - specialize (IH (gasNeeded', wrap64 (zeroes + 1))).
    destruct (sumProvidedGas gasLeft l _) as [l' r]. constructor; [now left | exact IH].
  - specialize (IH (gasNeeded', zeroes)).
    destruct (sumProvidedGas gasLeft l _) as [l' r]. constructor; [|exact IH].
    right. split; [apply Z.eqb_neq; exact Hzero | reflexivity].
Qed.

Lemma sumProvidedGasGroups_touches_gasLimit gasLeft groups : forall acc,
  Forall2 groupGasLimitOnly groups (fst (sumProvidedGasGroups gasLeft groups acc)).
Proof.
  induction groups as [|g l IH]; intros acc; [constructor|].
  cbn [sumProvidedGasGroups].
  pose proof (sumProvidedGas_touches_gasLimit gasLeft (AsyncCalls g) acc) as Hg.
  destruct (sumProvidedGas gasLeft (AsyncCalls g) acc) as [calls [e|acc']]; cbn [fst] in *.
  - constructor; [repeat split; exact Hg | apply groupGasLimitOnly_refl].
  - specialize (IH acc'). destruct (sumProvidedGasGroups gasLeft l acc') as [l' r].
    constructor; [repeat split; exact Hg | exact IH].
Qed.

(** A failed allocation has changed nothing but the gas limit of calls
    that name their gas. *)
Lemma allocateGas_failure_touches_gasLimit gasLeft groups e :
  snd (allocateGas gasLeft groups) = Some e ->
  Forall2 groupGasLimitOnly groups (fst (allocateGas gasLeft groups)).
Proof.
  unfold allocateGas.
  pose proof (sumProvidedGasGroups_touches_gasLimit gasLeft groups (0, 0)) as Hrel.
  destruct (sumProvidedGasGroups gasLeft groups (0, 0)) as [gs [e'|[gn zc]]];
    cbn [fst] in Hrel; [intros _; exact Hrel|].
  destruct (zc =? 0); [discriminate|].
  destruct (gasLeft <=? gn); [intros _; exact Hrel | discriminate].
Qed.

Lemma allocateGas_identifiers gasLeft groups :
  map Identifier (fst (allocateGas gasLeft groups)) = map Identifier groups.
Proof.
  assert (Hids : forall gs gs', Forall2 groupGasLimitOnly gs gs' ->
                                map Identifier gs' = map Identifier gs).
  { induction 1 as [|g g' l l' (Hid & _) _ IH]; [reflexivity|].
    cbn. now rewrite Hid, IH. }
  unfold allocateGas.
  pose proof (sumProvidedGasGroups_touches_gasLimit gasLeft groups (0, 0)) as Hrel.
  apply Hids in Hrel.
  destruct (sumProvidedGasGroups gasLeft groups (0, 0)) as [gs [e'|[gn zc]]];
    cbn [fst] in *; [exact Hrel|].
  destruct (zc =? 0); [exact Hrel|].
  destruct (gasLeft <=? gn); [exact Hrel|].
  cbn [fst]. rewrite <- Hrel. unfold shareGas. rewrite map_map. reflexivity.
Qed.

(** ** How the driver changes the context in memory *)

Lemma map_insert {A B} (f : A -> B) (l : list A) : forall i x,
  map f (<[i := x]> l) = <[i := f x]> (map f l).
Proof.
  induction l as [|a l IH]; intros [|i] x; cbn; try reflexivity.
  f_equal. apply IH.
Qed.

Lemma insert_same_identifier objs p group group' :
  objs !! p = Some group -> Identifier group' = Identifier group ->
  map Identifier (<[p := group']> objs) = map Identifier objs.
Proof.
  intros Hp Hid. rewrite map_insert, Hid. apply list_insert_id.
  change (map Identifier objs) with (Identifier <$> objs).
  rewrite list_lookup_fmap, Hp. reflexivity.
Qed.

Lemma foldInsert_identifiers ps : forall gs0 gs objs,
  Forall2 (fun p g => objs !! p = Some g) ps gs0 ->
  map Identifier gs = map Identifier gs0 ->
  map Identifier (fold_left insertGroup (combine ps gs) objs) = map Identifier objs.
Proof.
  induction ps as [|p ps IH]; intros gs0 gs objs Hlook Hids; [reflexivity|].
  inversion Hlook as [|? g0 ? gs0' Hp Hrest]; subst.
  destruct gs as [|g gs]; [reflexivity|].
  cbn [map] in Hids. injection Hids as Hid Hids.
  cbn [combine fold_left]. unfold insertGroup at 2. cbn [fst snd].
  assert (Hsame : map Identifier (<[p := g]> objs) = map Identifier objs)
    by (eapply insert_same_identifier; eauto).
  rewrite <- Hsame. apply (IH (omap (fun q => <[p := g]> objs !! q) ps)).
  - apply lookup_valid.
    rewrite length_insert. clear -Hrest.
    induction Hrest as [|q g' ? ? Hq _ IH']; constructor; [|exact IH'].
    apply lookup_lt_is_Some_1. eauto.
  - rewrite Hids. clear -Hrest Hsame.
    assert (Hpoint : forall q, Identifier <$> (<[p := g]> objs !! q)
                               = Identifier <$> (objs !! q)).
    { intros q. rewrite <- !list_lookup_fmap.
      change (Identifier <$> <[p := g]> objs) with (map Identifier (<[p := g]> objs)).
      rewrite Hsame. reflexivity. }
    induction Hrest as [|q g' ? ? Hq _ IH']; [reflexivity|].
    cbn [omap list_omap]. specialize (Hpoint q). rewrite Hq in Hpoint.
    destruct (<[p := g]> objs !! q) as [g''|]; [|discriminate].
    cbn in Hpoint. injection Hpoint as Hpoint. cbn. now rewrite Hpoint, IH'.
Qed.

Lemma evolves_refl r : evolves r r.
Proof. split; [reflexivity|]. split; reflexivity. Qed.

Lemma evolves_trans r0 r1 r2 : evolves r0 r1 -> evolves r1 r2 -> evolves r0 r2.
Proof.
  intros (Ha1 & Hi1 & Hs1) (Ha2 & Hi2 & Hs2).
  split; [congruence|]. split; [congruence|].
  etransitivity; eassumption.
Qed.

Lemma evolves_valid r0 r : validRef r0 -> evolves r0 r -> validRef r.
Proof.
  unfold validRef. intros Hval (_ & Hids & Hsub).
  assert (Hlen : List.length (groupObjects r) = List.length (groupObjects r0)).
  { rewrite <- (length_map Identifier (groupObjects r)), Hids. apply length_map. }
  rewrite List.Forall_forall in *. intros p Hp. rewrite Hlen. apply Hval.
  apply list_elem_of_In. apply list_elem_of_In in Hp.
  eapply elem_of_sublist; eassumption.
Qed.

Section DriverSteps.

Context {W : Type} `{VMHost W}.

Lemma setupAsyncCallsGas_run r (h : Host W) :
  setupAsyncCallsGas r h
  = Some ((storeGroups (fst (allocateGas (GasLeft (world h)) (groupsOf r))) r,
           snd (allocateGas (GasLeft (world h)) (groupsOf r))), h).
Proof.
  unfold setupAsyncCallsGas, bind, reads, ret.
  destruct (allocateGas (GasLeft (world h)) (groupsOf r)). reflexivity.
Qed.

Lemma setupAsyncCallsGas_evolves r (h : Host W) r' err h' :
  validRef r -> setupAsyncCallsGas r h = Some ((r', err), h') ->
  evolves r r' /\ h' = h.
Proof.
  intros Hval. rewrite setupAsyncCallsGas_run. intros [= <- _ <-].
  split; [|reflexivity]. split; [reflexivity|]. split; [|reflexivity]. cbn.
  apply (foldInsert_identifiers _ (groupsOf r)).
  - apply lookup_valid. exact Hval.
  - apply allocateGas_identifiers.
Qed.

Lemma sweepSync_evolves snapshot : forall groupIndex r (h : Host W) r' err h',
  sweepSync snapshot groupIndex r h = Some ((r', err), h') -> evolves r r'.
Proof.
  induction snapshot as [|p rest IH]; intros groupIndex r h r' err h'; cbn [sweepSync].
  - intros [= <- _ _]. apply evolves_refl.
  - destruct (groupObjects r !! p) as [group|] eqn:Hp; [|discriminate].
    unfold bind at 1.
    destruct (executeAsyncCallGroup group true h) as [[[group' e] h1]|] eqn:Hrun;
      [|discriminate].
    pose proof (executeAsyncCallGroup_identifier _ _ _ _ _ _ Hrun) as Hid.
    assert (Hstep : evolves r (setObjects (<[p := group']> (groupObjects r)) r)).
    { split; [reflexivity|]. split; [|reflexivity].
      cbn. eapply insert_same_identifier; eassumption. }
    destruct e as [e|]; [intros [= <- _ _]; exact Hstep|].
    intros Hrest. apply IH in Hrest. eapply evolves_trans; [|exact Hrest].
    destruct (groupIsCompleted group'); [|exact Hstep].
    eapply evolves_trans; [exact Hstep|].
    split; [reflexivity|]. split; [reflexivity|]. cbn. apply sublist_delete.
Qed.

Lemma sweepAsync_evolves snapshot : forall r (h : Host W) r' err h',
  sweepAsync snapshot r h = Some ((r', err), h') -> evolves r r'.
Proof.
  induction snapshot as [|p rest IH]; intros r h r' err h'; cbn [sweepAsync].
  - intros [= <- _ _]. apply evolves_refl.
  - destruct (groupObjects r !! p) as [group|] eqn:Hp; [|discriminate].
    unfold bind at 1.
    destruct (executeAsyncCallGroup group false h) as [[[group' e] h1]|] eqn:Hrun;
      [|discriminate].
    pose proof (executeAsyncCallGroup_identifier _ _ _ _ _ _ Hrun) as Hid.
    assert (Hstep : evolves r (setObjects (<[p := group']> (groupObjects r)) r)).
    { split; [reflexivity|]. split; [|reflexivity].
      cbn. eapply insert_same_identifier; eassumption. }
    destruct e as [e|]; [intros [= <- _ _]; exact Hstep|].
    intros Hrest. apply IH in Hrest. eapply evolves_trans; eassumption.
Qed.

Lemma emits_setupAsyncCallsGas r : emits (W := W) notStorage (setupAsyncCallsGas r).
Proof.
  intros h a h'. rewrite setupAsyncCallsGas_run. intros [= <- <-].
  exists []. split; [now rewrite app_nil_r | constructor].
Qed.

Lemma emits_sweepSync snapshot : forall groupIndex r,
  emits (W := W) notStorage (sweepSync snapshot groupIndex r).
Proof.
  induction snapshot as [|p rest IH]; intros groupIndex r; cbn [sweepSync].
  - apply emits_ret.
  - pose proof emits_executeAsyncCallGroup. repeat (solve [auto] || emits_step).
Qed.

Lemma emits_sweepAsync snapshot : forall r,
  emits (W := W) notStorage (sweepAsync snapshot r).
Proof.
  induction snapshot as [|p rest IH]; intros r; cbn [sweepAsync].
  - apply emits_ret.
  - pose proof emits_executeAsyncCallGroup. repeat (solve [auto] || emits_step).
Qed.

Lemma deleteByID_sublist objs groupID slice :
  deleteByID objs groupID slice `sublist_of` slice.
Proof.
  induction slice as [|p rest IH]; cbn [deleteByID]; [constructor|].
  destruct (objs !! p) as [g|]; [destruct (String.eqb _ _)|].
  - apply sublist_cons. reflexivity.
  - apply sublist_skip. exact IH.
  - apply sublist_skip. exact IH.
Qed.

Lemma storageWrites_app evs1 evs2 :
  storageWrites (evs1 ++ evs2) = storageWrites evs1 ++ storageWrites evs2.
Proof. unfold storageWrites. apply flat_map_app. Qed.

Lemma storageWrites_none evs : Forall notStorage evs -> storageWrites evs = [].
Proof.
  induction 1 as [|e l He _ IH]; [reflexivity|].
  cbn. destruct e; cbn in *; try exact IH. destruct He.
Qed.

End DriverSteps.

(** ** The persistence codec and the driver *)

Section Driver.

Context {W : Type} `{VMHost W}.

Lemma groupsOf_empty_iff r : validRef r -> (groupsOf r = [] <-> groupSlice r = []).
Proof.
  intros Hval.
  assert (Hlen : List.length (groupsOf r) = List.length (groupSlice r)).
  { symmetry. eapply Forall2_length. apply lookup_valid. exact Hval. }
  split; intros Hnil; rewrite Hnil in Hlen; cbn in Hlen.
  - now destruct (groupSlice r).
  - now destruct (groupsOf r).
Qed.

Lemma omap_sublist {A B} (f : A -> option B) l1 l2 :
  l1 `sublist_of` l2 -> omap f l1 `sublist_of` omap f l2.
Proof.
  induction 1 as [|x l1 l2 _ IH|x l1 l2 _ IH]; cbn [omap list_omap].
  - constructor.
  - destruct (f x); [apply sublist_skip|]; exact IH.
  - destruct (f x); [apply sublist_cons|]; exact IH.
Qed.

Lemma identifiers_of_groups (objs : list AsyncCallGroup) slice :
  map Identifier (omap (fun p => objs !! p) slice)
  = omap (fun p => map Identifier objs !! p) slice.
Proof.
  induction slice as [|p rest IH]; [reflexivity|]. cbn [omap list_omap].
  change (map Identifier objs) with (Identifier <$> objs) in *.
  rewrite list_lookup_fmap. destruct (objs !! p); cbn; [f_equal|]; exact IH.
Qed.

(** The identifiers of the groups a context holds only leave it. *)
Lemma evolves_identifiers r0 r :
  evolves r0 r ->
  map Identifier (groupsOf r) `sublist_of` map Identifier (groupsOf r0).
Proof.
  intros (_ & Hids & Hsub). unfold groupsOf.
  rewrite !identifiers_of_groups, Hids. apply omap_sublist. exact Hsub.
Qed.

Lemma deleteByID_removes objs groupID slice :
  NoDup (map Identifier (omap (fun p => objs !! p) slice)) ->
  Forall (fun g => Identifier g <> groupID)
         (omap (fun p => objs !! p) (deleteByID objs groupID slice)).
Proof.
  induction slice as [|p rest IH]; cbn [deleteByID omap list_omap]; [constructor|].
  destruct (objs !! p) as [g|] eqn:Hp; [|cbn [omap list_omap]; rewrite Hp; exact IH].
  cbn [map]. intros Hnd. apply NoDup_cons in Hnd as [Hnotin Hnd].
  destruct (String.eqb (Identifier g) groupID) eqn:Heq.
  - apply String.eqb_eq in Heq. subst groupID.
    apply List.Forall_forall. intros g' Hg' Hsame. apply Hnotin.
    rewrite <- Hsame. apply list_elem_of_In. apply in_map. exact Hg'.
  - cbn [omap list_omap]. rewrite Hp. constructor; [|apply IH; exact Hnd].
    intros Hsame. rewrite Hsame, String.eqb_refl in Heq. discriminate.
Qed.

Lemma saveAsyncContext_cases r (h : Host W) err h' :
  saveAsyncContext r h = Some (err, h') ->
  (groupSlice r = [] /\ err = None /\ h' = h)
  \/ (groupSlice r <> [] /\ h' = h
      /\ exists e, Marshal (contextOf r) = inl e /\ err = Some e)
  \/ (groupSlice r <> []
      /\ exists data,
          let key := CustomStorageKey AsyncDataPrefix (GetPrevTxHash (world h)) in
          Marshal (contextOf r) = inr data
          /\ err = fst (SetStorage key data (world h))
          /\ h' = mkHost (snd (SetStorage key data (world h)))
                         (trace h ++ [EvSetStorage key data])).
Proof.
  unfold saveAsyncContext.
  destruct (groupSlice r) as [|p rest] eqn:Hslice.
  { cbn. intros [= <- <-]. left. auto. }
  assert (Hlen : (len (p :: rest) =? 0) = false).
  { apply Z.eqb_neq. rewrite len_cons. pose proof (len_nonneg rest). lia. }
  rewrite Hlen. unfold bind at 1, reads at 1.
  destruct (Marshal (contextOf r)) as [e|data] eqn:Hm.
  - intros [= <- <-]. right. left. repeat split; [discriminate|]. eauto.
  - unfold bind, call.
    destruct (SetStorage _ data (world h)) as [e w] eqn:Hset.
    intros Hret. right. right. split; [discriminate|]. exists data. cbn zeta.
    rewrite Hset. cbn [fst snd].
    destruct e; injection Hret as <- <-; repeat split.
Qed.

End Driver.

Section DriverCases.

Context {W : Type} `{VMHost W}.

(** The ways the driver returns: without a storage write, and then with
    an empty slice if without error; or after one storage write of the
    encoded context, made once the legacy group has been deleted. *)
Lemma driverRef_cases r (h : Host W) r' err h' :
  validRef r ->
  executeCurrentAsyncContextRef r h = Some ((r', err), h') ->
  evolves r r'
  /\ exists evs,
      trace h' = trace h ++ evs
      /\ ((storageWrites evs = [] /\ (err = None -> groupSlice r' = []))
          \/ exists r4 w data,
              let key := CustomStorageKey AsyncDataPrefix (GetPrevTxHash w) in
              evolves r r4
              /\ r' = DeleteAsyncCallGroupByID LegacyAsyncCallGroupID r4
              /\ groupSlice r' <> []
              /\ Marshal (contextOf r') = inr data
              /\ storageWrites evs = [(key, data)]
              /\ err = fst (SetStorage key data w)
              /\ world h' = snd (SetStorage key data w)).
Proof.
  intros Hval. unfold executeCurrentAsyncContextRef.
  destruct (contextIsCompleted (contextOf r)) eqn:Hdone.
  { intros [= <- <- <-]. split; [apply evolves_refl|].
    exists []. split; [now rewrite app_nil_r|]. left. split; [reflexivity|].
    intros _. apply groupsOf_empty_iff; [exact Hval|].
    unfold contextIsCompleted in Hdone. cbn in Hdone.
    now destruct (groupsOf r). }
  (* the first allocation *)
  unfold andThen at 1, bind at 1.
  destruct (setupAsyncCallsGas r h) as [[[r1 e1] h1]|] eqn:Hsetup1; [|discriminate].
  destruct (setupAsyncCallsGas_evolves _ _ _ _ _ Hval Hsetup1) as [Hev1 ->].
  pose proof (evolves_valid _ _ Hval Hev1) as Hval1.
  destruct e1 as [e1|].
  { intros [= <- <- <-]. split; [exact Hev1|].
    exists []. split; [now rewrite app_nil_r|]. left. split; [reflexivity|discriminate]. }
  (* the first sweep *)
  unfold andThen at 1, bind at 1.
  destruct (sweepSync (groupSlice r1) 0 r1 h) as [[[r2 e2] h2]|] eqn:Hsweep1;
    [|discriminate].
  pose proof (sweepSync_evolves _ _ _ _ _ _ _ Hsweep1) as Hev2.
  destruct (emits_sweepSync _ _ _ _ _ _ Hsweep1) as (evs2 & Ht2 & Hp2).
  pose proof (evolves_trans _ _ _ Hev1 Hev2) as Hev02.
  pose proof (evolves_valid _ _ Hval Hev02) as Hval2.
  destruct e2 as [e2|].
  { intros [= <- <- <-]. split; [exact Hev02|].
    exists evs2. split; [exact Ht2|]. left.
    split; [now apply storageWrites_none | discriminate]. }
  (* the second allocation *)
  unfold andThen at 1, bind at 1.
  destruct (setupAsyncCallsGas r2 h2) as [[[r3 e3] h3]|] eqn:Hsetup2; [|discriminate].
  destruct (setupAsyncCallsGas_evolves _ _ _ _ _ Hval2 Hsetup2) as [Hev3 ->].
  pose proof (evolves_trans _ _ _ Hev02 Hev3) as Hev03.
  destruct e3 as [e3|].
  { intros [= <- <- <-]. split; [exact Hev03|].
    exists evs2. split; [exact Ht2|]. left.
    split; [now apply storageWrites_none | discriminate]. }
  (* the second sweep *)
  unfold andThen at 1, bind at 1.
  destruct (sweepAsync (groupSlice r3) r3 h2) as [[[r4 e4] h4]|] eqn:Hsweep2;
    [|discriminate].
  pose proof (sweepAsync_evolves _ _ _ _ _ _ Hsweep2) as Hev4.
  destruct (emits_sweepAsync _ _ _ _ _ Hsweep2) as (evs4 & Ht4 & Hp4).
  pose proof (evolves_trans _ _ _ Hev03 Hev4) as Hev04.
  assert (Hnone : storageWrites (evs2 ++ evs4) = []).
  { rewrite storageWrites_app, !storageWrites_none by assumption. reflexivity. }
  assert (Ht04 : trace h4 = trace h ++ evs2 ++ evs4)
    by (rewrite Ht4, Ht2; now rewrite app_assoc).
  destruct e4 as [e4|].
  { intros [= <- <- <-]. split; [exact Hev04|].
    exists (evs2 ++ evs4). split; [exact Ht04|]. left. split; [exact Hnone|discriminate]. }
  (* the legacy group goes, and the context is saved *)
  set (r5 := DeleteAsyncCallGroupByID LegacyAsyncCallGroupID r4).
  assert (Hev5 : evolves r r5).
  { eapply evolves_trans; [exact Hev04|].
    split; [reflexivity|]. split; [reflexivity|]. apply deleteByID_sublist. }
  unfold bind at 1.
  destruct (saveAsyncContext r5 h4) as [[e5 h5]|] eqn:Hsave; [|discriminate].
  intros [= <- <- <-]. split; [exact Hev5|].
  apply saveAsyncContext_cases in Hsave
    as [(Hnil & -> & ->)|[(Hne & -> & e & Hm & ->)|(Hne & data & Hm & -> & ->)]].
  - exists (evs2 ++ evs4). split; [exact Ht04|]. left. split; [exact Hnone|auto].
  - exists (evs2 ++ evs4). split; [exact Ht04|]. left. split; [exact Hnone|discriminate].
  - exists ((evs2 ++ evs4) ++ [EvSetStorage
              (CustomStorageKey AsyncDataPrefix (GetPrevTxHash (world h4))) data]).
    split; [cbn [trace]; rewrite Ht04; now rewrite !app_assoc|].
    right. exists r4, (world h4), data. cbn zeta.
    split; [exact Hev04|]. split; [reflexivity|]. split; [exact Hne|].
    split; [exact Hm|]. split; [|split; reflexivity].
    rewrite storageWrites_app, Hnone. reflexivity.
Qed.

End DriverCases.

Section DriverTheorems.

Context {W : Type} `{VMHost W}.

Lemma driver_run (ctx : AsyncContext) (h : Host W) ctx' err h' :
  executeCurrentAsyncContext ctx h = Some ((ctx', err), h') ->
  exists r',
    executeCurrentAsyncContextRef (newRef ctx) h = Some ((r', err), h')
    /\ ctx' = contextOf r'.
Proof.
  unfold executeCurrentAsyncContext, bind.
  destruct (executeCurrentAsyncContextRef (newRef ctx) h) as [[[r' e] h1]|];
    [|discriminate].
  intros [= <- <- <-]. eauto.
Qed.

(** C2.  When the driver returns without error, either no group remains
    in the context and the driver has written nothing to storage, or a
    group remains and the driver has written to storage exactly once: at
    the key [AsyncDataPrefix ++ previous transaction hash], the encoding
    of the context that remains. *)
Theorem driver_persists_residual (ctx : AsyncContext) (h : Host W) ctx' h' :
  executeCurrentAsyncContext ctx h = Some ((ctx', None), h') ->
  exists evs,
    trace h' = trace h ++ evs
    /\ ((AsyncCallGroups ctx' = [] /\ storageWrites evs = [])
        \/ (AsyncCallGroups ctx' <> []
            /\ exists w data,
                Marshal ctx' = inr data
                /\ storageWrites evs = [(AsyncDataPrefix ++ GetPrevTxHash w, data)]
                /\ world h' = snd (SetStorage (AsyncDataPrefix ++ GetPrevTxHash w) data w))).
Proof.
  intros Hrun. apply driver_run in Hrun as (r' & Hrun & ->).
  pose proof (proj2 (wfRef_newRef ctx)) as Hval.
  destruct (driverRef_cases _ _ _ _ _ Hval Hrun) as (Hev & evs & Ht & Hcases).
  pose proof (evolves_valid _ _ Hval Hev) as Hval'.
  exists evs. split; [exact Ht|].
  destruct Hcases as [[Hnone Hnil]|(r4 & w & data & _ & _ & Hne & Hm & Hw & _ & Hworld)].
  - left. split; [|exact Hnone]. cbn. apply groupsOf_empty_iff; auto.
  - right. split.
    + cbn. intros Hnil. apply Hne. apply groupsOf_empty_iff; assumption.
    + exists w, data. auto.
Qed.

(** C9.  Whenever the driver writes the context to storage, what it
    writes is the encoding of the context it leaves, and no group of that
    context has the identifier [LegacyAsyncCallGroupID]: the group with
    that identifier was deleted after the second sweep. *)
Theorem persisted_context_has_no_legacy_group
    (ctx : AsyncContext) (h : Host W) ctx' err h' :
  NoDup (map Identifier (AsyncCallGroups ctx)) ->
  executeCurrentAsyncContext ctx h = Some ((ctx', err), h') ->
  exists evs,
    trace h' = trace h ++ evs
    /\ forall key value,
        In (key, value) (storageWrites evs) ->
        Marshal ctx' = inr value
        /\ Forall (fun g => Identifier g <> LegacyAsyncCallGroupID)
                  (AsyncCallGroups ctx').
Proof.
  intros Hnd Hrun. apply driver_run in Hrun as (r' & Hrun & ->).
  pose proof (proj2 (wfRef_newRef ctx)) as Hval.
  destruct (driverRef_cases _ _ _ _ _ Hval Hrun) as (_ & evs & Ht & Hcases).
  exists evs. split; [exact Ht|]. intros key value Hin.
  destruct Hcases as [[Hnone _]|(r4 & w & data & Hev4 & -> & _ & Hm & Hw & _)].
  - rewrite Hnone in Hin. destruct Hin.
  - rewrite Hw in Hin. destruct Hin as [[= _ <-]|[]]. split; [exact Hm|].
    cbn. unfold groupsOf. cbn. apply deleteByID_removes.
    eapply sublist_NoDup; [|apply (evolves_identifiers _ _ Hev4)].
    rewrite groupsOf_newRef. exact Hnd.
Qed.

(** C8 (as amended).  When the allocation at the entry of the driver
    fails with NotEnoughGas, the driver returns that error with the
    collaborators untouched: no call is executed, no transfer is
    appended and nothing is written to storage.  The context keeps its
    groups and calls; a call that names its gas may have had its
    [GasLimit] set to its [ProvidedGas], and no other field of any call
    has changed. *)
Theorem allocation_failure_aborts_driver (ctx : AsyncContext) (h : Host W) r h1 :
  setupAsyncCallsGas (newRef ctx) h = Some ((r, Some ErrNotEnoughGas), h1) ->
  exists ctx',
    executeCurrentAsyncContext ctx h = Some ((ctx', Some ErrNotEnoughGas), h)
    /\ arwen.CallerAddr ctx' = arwen.CallerAddr ctx
    /\ Forall2 groupGasLimitOnly (AsyncCallGroups ctx) (AsyncCallGroups ctx').
Proof.
  intros Hsetup. pose proof Hsetup as Hrun.
  rewrite setupAsyncCallsGas_run, groupsOf_newRef in Hrun.
  injection Hrun as Hr Herr _.
  assert (Hgroups : AsyncCallGroups ctx <> []).
  { intros Hnil. rewrite Hnil in Herr. discriminate. }
  exists (contextOf r). split; [|split].
  - unfold executeCurrentAsyncContext, executeCurrentAsyncContextRef.
    unfold contextIsCompleted, contextOf at 1. cbn [AsyncCallGroups].
    rewrite groupsOf_newRef.
    destruct (AsyncCallGroups ctx) as [|g gs] eqn:Hg; [contradiction|].
    unfold bind at 1, andThen at 1, bind at 1. rewrite Hsetup.
    assert (Hh : h1 = h).
    { rewrite setupAsyncCallsGas_run in Hsetup. now injection Hsetup. }
    subst h1. reflexivity.
  - subst r. reflexivity.
  - subst r. cbn [contextOf AsyncCallGroups].
    rewrite groupsOf_storeGroups.
    + eapply allocateGas_failure_touches_gasLimit. exact Herr.
    + apply wfRef_newRef.
    + cbn. rewrite length_seq. apply allocateGas_length.
Qed.

End DriverTheorems.

Lemma driver_persists_residual_witness :
  exists ctx' h' evs,
    executeCurrentAsyncContext demoContextMixed (mkHost 5000 []) = Some ((ctx', None), h')
    /\ trace h' = evs
    /\ List.length (storageWrites evs) = 1%nat.
Proof.
  eassert (Hrun : executeCurrentAsyncContext demoContextMixed (mkHost 5000 [])
                  = Some (_, None, _)) by (vm_compute; reflexivity).
  destruct (driver_persists_residual _ _ _ _ Hrun) as (evs & Ht & Hcases).
  do 3 eexists. split; [exact Hrun|]. split; [exact Ht|].
  destruct Hcases as [[Hnil _]|(_ & w & data & _ & Hw & _)]; [discriminate Hnil|].
  cbn [trace app]. rewrite Hw. reflexivity.
Defined.

Lemma persisted_context_has_no_legacy_group_witness :
  exists ctx' h',
    executeCurrentAsyncContext demoContextMixed (mkHost 5000 []) = Some ((ctx', None), h')
    /\ Forall (fun g => Identifier g <> "LegacyAsync") (AsyncCallGroups ctx').
Proof.
  eassert (Hrun : executeCurrentAsyncContext demoContextMixed (mkHost 5000 [])
                  = Some (_, None, _)) by (vm_compute; reflexivity).
  assert (Hnd : NoDup (map Identifier (AsyncCallGroups demoContextMixed))).
  { cbn. apply NoDup_cons. split; [|apply NoDup_singleton].
    intros Hin. apply list_elem_of_singleton in Hin. discriminate. }
  destruct (persisted_context_has_no_legacy_group _ _ _ _ _ Hnd Hrun)
    as (evs & Ht & Hwrites).
  do 2 eexists. split; [exact Hrun|].
  cbn [trace app] in Ht. subst evs.
  eapply (fun k v Hin => proj2 (Hwrites k v Hin)).
  cbn. left. reflexivity.
Defined.

Lemma allocation_failure_aborts_driver_witness :
  exists ctx',
    executeCurrentAsyncContext demoContextShort (mkHost 1000 [])
    = Some ((ctx', Some ErrNotEnoughGas), mkHost 1000 [])
    /\ Forall2 groupGasLimitOnly (AsyncCallGroups demoContextShort) (AsyncCallGroups ctx').
Proof.
  eassert (Hsetup : setupAsyncCallsGas (newRef demoContextShort) (mkHost 1000 [])
                    = Some (_, Some ErrNotEnoughGas, _)) by (vm_compute; reflexivity).
  destruct (allocation_failure_aborts_driver _ _ _ _ Hsetup) as (ctx' & Hrun & _ & Hrel).
  exists ctx'. split; [exact Hrun | exact Hrel].
Defined.

(** C8 as stated fails: the allocation fails at the fourth call, after it
    has given the first call its gas limit. *)
Lemma failed_allocation_modifies_gas_limit :
  exists ctx',
    executeCurrentAsyncContext demoContextShort (mkHost 1000 [])
    = Some ((ctx', Some ErrNotEnoughGas), mkHost 1000 [])
    /\ map GasLimit (allCalls (AsyncCallGroups demoContextShort)) = [0; 0; 0; 0]
    /\ map GasLimit (allCalls (AsyncCallGroups ctx')) = [5; 0; 0; 0]
    /\ ctx' <> demoContextShort.
Proof.
  eexists. split; [vm_compute; reflexivity|].
  split; [reflexivity|]. split; [reflexivity|]. discriminate.
Qed.

(** * Further properties of the code *)

(** ** The gas allocator *)

Lemma allCalls_mapCalls f groups :
  allCalls (mapCalls f groups) = map f (allCalls groups).
Proof.
  induction groups as [|g l IH]; [reflexivity|].
  unfold allCalls in *. cbn [mapCalls map flat_map AsyncCalls setAsyncCalls].
  unfold mapCalls in IH. rewrite IH, map_app. reflexivity.
Qed.

Lemma mapCalls_mapCalls f g groups :
  mapCalls f (mapCalls g groups) = mapCalls (fun c => f (g c)) groups.
Proof.
  unfold mapCalls. rewrite map_map. apply map_ext. intros group.
  unfold setAsyncCalls. cbn. now rewrite map_map.
Qed.

Lemma gasLimitSum_assignedGas s calls :
  gasLimitSum (map (assignedGas s) calls)
  = gasNeededOf calls + s * zeroGasCount calls.
Proof.
  induction calls as [|c l IH]; cbn [map gasLimitSum gasNeededOf zeroGasCount]; [lia|].
  rewrite IH. unfold assignedGas.
  destruct (ProvidedGas c =? 0) eqn:Hz; cbn [GasLimit setGasLimit]; [|lia].
  apply Z.eqb_eq in Hz. lia.
Qed.

Lemma gasNeededOf_assignedGas s calls :
  gasNeededOf (map (assignedGas s) calls) = gasNeededOf calls.
Proof.
  induction calls as [|c l IH]; cbn [map gasNeededOf]; [reflexivity|].
  rewrite IH. unfold assignedGas. destruct (ProvidedGas c =? 0); reflexivity.
Qed.

Lemma zeroGasCount_assignedGas s calls :
  zeroGasCount (map (assignedGas s) calls) = zeroGasCount calls.
Proof.
  induction calls as [|c l IH]; cbn [map zeroGasCount]; [reflexivity|].
  rewrite IH. unfold assignedGas at 1.
  destruct (ProvidedGas c =? 0) eqn:Hz; cbn [ProvidedGas setGasLimit]; now rewrite Hz.
Qed.

Lemma assignedGas_idempotent s c : assignedGas s (assignedGas s c) = assignedGas s c.
Proof.
  unfold assignedGas. destruct (ProvidedGas c =? 0) eqn:Hz;
    cbn [ProvidedGas setGasLimit]; rewrite Hz; reflexivity.
Qed.

(** What a run of the allocator on a fresh context amounts to. *)
Lemma setupAsyncCallsGas_newRef {W} `{VMHost W} ctx (h : Host W) r err h' :
  setupAsyncCallsGas (newRef ctx) h = Some ((r, err), h') ->
  h' = h
  /\ r = storeGroups (fst (allocateGas (GasLeft (world h)) (AsyncCallGroups ctx)))
                     (newRef ctx)
  /\ groupsOf r = fst (allocateGas (GasLeft (world h)) (AsyncCallGroups ctx))
  /\ err = snd (allocateGas (GasLeft (world h)) (AsyncCallGroups ctx)).
Proof.
  rewrite setupAsyncCallsGas_run, groupsOf_newRef. intros [= <- <- <-].
  split; [reflexivity|]. split; [reflexivity|]. split; [|reflexivity].
  apply groupsOf_storeGroups; [apply wfRef_newRef|].
  cbn. rewrite length_seq. apply allocateGas_length.
Qed.

(** A successful allocation, read backwards: the sum fitted, and either
    no call left its gas open or something was left to share. *)
Lemma allocateGas_success_inv gasLeft groups groups' :
  isUint64 gasLeft ->
  Forall (fun c => isUint64 (ProvidedGas c)) (allCalls groups) ->
  len (allCalls groups) < 2 ^ 64 ->
  allocateGas gasLeft groups = (groups', None) ->
  gasNeededOf (allCalls groups) <= gasLeft
  /\ (zeroGasCount (allCalls groups) = 0 \/ gasNeededOf (allCalls groups) < gasLeft)
  /\ groups' = mapCalls (assignedGas ((gasLeft - gasNeededOf (allCalls groups))
                                      / zeroGasCount (allCalls groups))) groups.
Proof.
  intros HgL Hall Hcount Hrun.
  pose proof (zeroGasCount_bounds (allCalls groups)) as Hzb.
  assert (Hcases : (gasNeededOf (allCalls groups) <= gasLeft
                    /\ (zeroGasCount (allCalls groups) = 0
                        \/ gasNeededOf (allCalls groups) < gasLeft))
                   \/ (gasLeft < gasNeededOf (allCalls groups)
                       \/ 0 < zeroGasCount (allCalls groups)
                          /\ gasLeft <= gasNeededOf (allCalls groups))) by lia.
  destruct Hcases as [[Hfit Hcase]|Hcase].
  - split; [exact Hfit|]. split; [exact Hcase|].
    rewrite (allocateGas_ok gasLeft groups HgL Hall Hcount Hfit Hcase) in Hrun.
    now injection Hrun.
  - destruct (allocateGas_err gasLeft groups HgL Hall Hcount Hcase) as (gs & Heq & _).
    rewrite Heq in Hrun. discriminate.
Qed.

Lemma setGasLimit_own c : setGasLimit (GasLimit c) c = c.
Proof. now destruct c. Qed.

Lemma setGasLimit_twice a b c : setGasLimit a (setGasLimit b c) = setGasLimit a c.
Proof. reflexivity. Qed.

Lemma gasLimitOnly_same c c' : gasLimitOnly c c' -> sameButGasLimit c c'.
Proof.
  unfold sameButGasLimit. intros [->|[_ ->]]; [|rewrite setGasLimit_twice];
    apply setGasLimit_own.
Qed.

Lemma allocateGas_same_but_gasLimit gasLeft groups :
  Forall2 groupSameButGasLimit groups (fst (allocateGas gasLeft groups)).
Proof.
  assert (Hweak : forall gs gs', Forall2 groupGasLimitOnly gs gs' ->
                                 Forall2 groupSameButGasLimit gs gs').
  { intros gs gs' Hrel. eapply Forall2_impl; [exact Hrel|].
    intros g g' (Hid & Hcb & Hcalls). split; [exact Hid|]. split; [exact Hcb|].
    eapply Forall2_impl; [exact Hcalls|]. apply gasLimitOnly_same. }
  assert (Hshare : forall s gs gs', Forall2 groupSameButGasLimit gs gs' ->
                                    Forall2 groupSameButGasLimit gs (shareGas s gs')).
  { intros s gs gs' Hrel. induction Hrel as [|g g' l l' (Hid & Hcb & Hcalls) _ IH];
      [constructor|].
    cbn [shareGas map]. constructor; [|exact IH].
    split; [exact Hid|]. split; [exact Hcb|]. cbn [AsyncCalls setAsyncCalls].
    clear -Hcalls. induction Hcalls as [|c c' k k' Hc _ IHc]; [constructor|].
    cbn [map]. constructor; [|exact IHc].
    unfold sameButGasLimit in *. destruct (ProvidedGas c' =? 0); [|exact Hc].
    rewrite setGasLimit_twice. exact Hc. }
  unfold allocateGas.
  pose proof (Hweak _ _ (sumProvidedGasGroups_touches_gasLimit gasLeft groups (0, 0)))
    as Hrel.
  destruct (sumProvidedGasGroups gasLeft groups (0, 0)) as [gs [e|[gn zc]]];
    cbn [fst] in *; [exact Hrel|].
  destruct (zc =? 0); [exact Hrel|].
  destruct (gasLeft <=? gn); [exact Hrel|]. cbn [fst]. apply Hshare. exact Hrel.
Qed.

Lemma providedGas_assignedGas_uint64 s calls :
  Forall (fun c => isUint64 (ProvidedGas c)) calls ->
  Forall (fun c => isUint64 (ProvidedGas c)) (map (assignedGas s) calls).
Proof.
  induction 1 as [|c l Hc _ IH]; cbn [map]; constructor; [|exact IH].
  unfold assignedGas. destruct (ProvidedGas c =? 0); exact Hc.
Qed.

Section AllocatorProperties.

Context {W : Type} `{VMHost W}.

Variables (ctx : AsyncContext) (h : Host W).

Let gasLeft := GasLeft (world h).
Let calls := allCalls (AsyncCallGroups ctx).

Hypothesis gasLeft_uint64 : isUint64 gasLeft.
Hypothesis provided_uint64 : Forall (fun c => isUint64 (ProvidedGas c)) calls.
Hypothesis calls_countable : len calls < 2 ^ 64.

(** X1.  A successful allocation never hands out more gas than the
    balance holds: the gas limits of all calls sum to at most [gasLeft].
    When calls share the rest, what the division discards is less than
    their number. *)
Theorem allocation_never_overcommits r h' :
  setupAsyncCallsGas (newRef ctx) h = Some ((r, None), h') ->
  gasLimitSum (allCalls (groupsOf r)) <= gasLeft
  /\ (0 < zeroGasCount calls ->
      gasLeft - gasLimitSum (allCalls (groupsOf r)) < zeroGasCount calls).
Proof.
  intros Hrun. apply setupAsyncCallsGas_newRef in Hrun as (_ & _ & Hgroups & Herr).
  assert (Halloc : allocateGas gasLeft (AsyncCallGroups ctx) = (groupsOf r, None)).
  { rewrite Hgroups, Herr. apply surjective_pairing. }
  apply allocateGas_success_inv in Halloc as (Hfit & Hcase & Heq); try assumption.
  fold calls in Hfit, Hcase, Heq.
  rewrite Heq, allCalls_mapCalls, gasLimitSum_assignedGas. fold calls.
  pose proof (zeroGasCount_bounds calls) as Hzb.
  destruct (Z.eq_dec (zeroGasCount calls) 0) as [Hz|Hz].
  - rewrite Hz. split; lia.
  - assert (Hpos : 0 < zeroGasCount calls) by lia.
    pose proof (Z.mul_div_le (gasLeft - gasNeededOf calls) _ Hpos) as Hle.
    pose proof (Z.mod_pos_bound (gasLeft - gasNeededOf calls) _ Hpos) as Hmod.
    pose proof (Z.div_mod (gasLeft - gasNeededOf calls) (zeroGasCount calls) Hz) as Hdm.
    split; [nia|]. intros _. nia.
Qed.

(** X2.  When fewer units of gas are left over than there are calls to
    share them, the allocation still succeeds and every call that left
    its gas open gets a gas limit of zero. *)
Theorem allocation_can_share_nothing :
  0 < zeroGasCount calls ->
  gasNeededOf calls < gasLeft < gasNeededOf calls + zeroGasCount calls ->
  exists r,
    setupAsyncCallsGas (newRef ctx) h = Some ((r, None), h)
    /\ groupsOf r = mapCalls (assignedGas 0) (AsyncCallGroups ctx).
Proof.
  intros Hzero Hrange.
  destruct (setupAsyncCallsGas (newRef ctx) h) as [[[r err] h']|] eqn:Hrun;
    [|rewrite setupAsyncCallsGas_run in Hrun; discriminate].
  pose proof Hrun as Hrun'.
  apply setupAsyncCallsGas_newRef in Hrun' as (-> & _ & Hgroups & Herr).
  fold gasLeft in Hgroups, Herr.
  rewrite (allocateGas_ok gasLeft (AsyncCallGroups ctx))
    in Hgroups, Herr by (auto; fold calls; lia).
  cbn [fst snd] in Hgroups, Herr. subst err. exists r. split; [reflexivity|].
  rewrite Hgroups. fold calls. rewrite Z.div_small by lia. reflexivity.
Qed.

(** X3.  The allocator is idempotent: run again on the context it has
    just set up, with the balance unchanged, it succeeds and assigns the
    same gas limits. *)
Theorem allocation_is_idempotent r h' :
  setupAsyncCallsGas (newRef ctx) h = Some ((r, None), h') ->
  exists r',
    setupAsyncCallsGas r h' = Some ((r', None), h')
    /\ groupsOf r' = groupsOf r.
Proof.
  intros Hrun. apply setupAsyncCallsGas_newRef in Hrun as (-> & Hr & Hgroups & Herr).
  fold gasLeft in Hr, Hgroups, Herr.
  assert (Halloc : allocateGas gasLeft (AsyncCallGroups ctx) = (groupsOf r, None)).
  { rewrite Hgroups, Herr. apply surjective_pairing. }
  apply allocateGas_success_inv in Halloc as (Hfit & Hcase & Heq); try assumption.
  fold calls in Hfit, Hcase, Heq.
  set (s := (gasLeft - gasNeededOf calls) / zeroGasCount calls) in *.
  assert (Hcalls : allCalls (groupsOf r) = map (assignedGas s) calls)
    by (rewrite Heq; apply allCalls_mapCalls).
  assert (Hagain : allocateGas gasLeft (groupsOf r) = (groupsOf r, None)).
  { rewrite allocateGas_ok; rewrite ?Hcalls, ?gasNeededOf_assignedGas,
      ?zeroGasCount_assignedGas; try assumption.
    - fold s. rewrite Heq at 1. rewrite mapCalls_mapCalls. rewrite Heq. f_equal.
      unfold mapCalls. apply map_ext. intros g. f_equal. apply map_ext.
      intros c. apply assignedGas_idempotent.
    - apply providedGas_assignedGas_uint64. exact provided_uint64.
    - unfold len in *. rewrite length_map. exact calls_countable. }
  rewrite setupAsyncCallsGas_run. fold gasLeft. rewrite Hagain. cbn [fst snd].
  eexists. split; [reflexivity|].
  assert (Hwf : wfRef r).
  { rewrite Hr. split; [apply wfRef_newRef|].
    unfold validRef, storeGroups. cbn [groupSlice groupObjects setObjects].
    change (fun objs pg => <[pg.1 := pg.2]> objs) with insertGroup.
    rewrite length_foldInsert. apply (proj2 (wfRef_newRef ctx)). }
  apply groupsOf_storeGroups; [exact Hwf|]. apply groupsOf_length. exact Hwf.
Qed.

End AllocatorProperties.

(** X4.  Whatever its outcome, the allocator only reads the balance and
    only writes gas limits: the collaborators are left as they were, and
    the context keeps its groups, their identifiers and callbacks, and
    every field of every call but [GasLimit]. *)
Theorem allocation_touches_only_gas_limit {W} `{VMHost W}
    (ctx : AsyncContext) (h : Host W) r err h' :
  setupAsyncCallsGas (newRef ctx) h = Some ((r, err), h') ->
  h' = h
  /\ Forall2 groupSameButGasLimit (AsyncCallGroups ctx) (groupsOf r).
Proof.
  intros Hrun. apply setupAsyncCallsGas_newRef in Hrun as (-> & _ & Hgroups & _).
  split; [reflexivity|]. rewrite Hgroups. apply allocateGas_same_but_gasLimit.
Qed.

Ltac demo_allocator_hyps :=
  first [ unfold isUint64; cbn; lia
        | repeat constructor; cbn; lia
        | vm_compute; reflexivity ].

Lemma allocation_never_overcommits_witness :
  exists r,
    setupAsyncCallsGas (newRef demoContext) (mkHost 1000 []) = Some ((r, None), mkHost 1000 [])
    /\ gasLimitSum (allCalls (groupsOf r)) <= 1000.
Proof.
  eassert (Hrun : setupAsyncCallsGas (newRef demoContext) (mkHost 1000 [])
                  = Some (_, None, _)) by (vm_compute; reflexivity).
  eexists. split; [exact Hrun|].
  refine (proj1 (allocation_never_overcommits demoContext (mkHost 1000 [])
                   _ _ _ _ _ Hrun)); demo_allocator_hyps.
Defined.

Lemma allocation_can_share_nothing_witness :
  exists r,
    setupAsyncCallsGas (newRef demoContextTight) (mkHost 101 [])
    = Some ((r, None), mkHost 101 [])
    /\ map GasLimit (allCalls (groupsOf r)) = [100; 0; 0].
Proof.
  destruct (allocation_can_share_nothing demoContextTight (mkHost 101 []))
    as (r & Hrun & Hgroups); try demo_allocator_hyps.
  exists r. split; [exact Hrun|]. rewrite Hgroups. reflexivity.
Defined.

Lemma allocation_is_idempotent_witness :
  exists r r',
    setupAsyncCallsGas (newRef demoContext) (mkHost 1000 []) = Some ((r, None), mkHost 1000 [])
    /\ setupAsyncCallsGas r (mkHost 1000 []) = Some ((r', None), mkHost 1000 [])
    /\ groupsOf r' = groupsOf r.
Proof.
  eassert (Hrun : setupAsyncCallsGas (newRef demoContext) (mkHost 1000 [])
                  = Some (_, None, _)) by (vm_compute; reflexivity).
  assert (H1 : isUint64 (GasLeft (world (mkHost 1000 [])))) by demo_allocator_hyps.
  assert (H2 : Forall (fun c => isUint64 (ProvidedGas c))
                      (allCalls (AsyncCallGroups demoContext)))
    by demo_allocator_hyps.
  assert (H3 : len (allCalls (AsyncCallGroups demoContext)) < 2 ^ 64)
    by demo_allocator_hyps.
  destruct (allocation_is_idempotent demoContext (mkHost 1000 []) H1 H2 H3 _ _ Hrun)
    as (r' & Hagain & Hsame).
  do 2 eexists. split; [exact Hrun|]. split; [exact Hagain | exact Hsame].
Defined.

Lemma allocation_touches_only_gas_limit_witness :
  exists r,
    setupAsyncCallsGas (newRef demoContextShort) (mkHost 1000 [])
    = Some ((r, Some ErrNotEnoughGas), mkHost 1000 [])
    /\ Forall2 groupSameButGasLimit (AsyncCallGroups demoContextShort) (groupsOf r).
Proof.
  eassert (Hrun : setupAsyncCallsGas (newRef demoContextShort) (mkHost 1000 [])
                  = Some (_, Some ErrNotEnoughGas, _)) by (vm_compute; reflexivity).
  eexists. split; [exact Hrun|].
  exact (proj2 (allocation_touches_only_gas_limit _ _ _ _ _ Hrun)).
Defined.

(** ** The encoding of numbers in call and callback data *)

Lemma byteOfZ_value n : Z.of_N (Byte.to_N (byteOfZ n)) = n mod 256.
Proof.
  unfold byteOfZ. pose proof (Z.mod_pos_bound n 256 ltac:(lia)) as Hb.
  destruct (Byte.of_N (Z.to_N (n mod 256))) as [b|] eqn:Hof.
  - apply Byte.to_of_N in Hof. rewrite Hof. lia.
  - apply Byte.of_N_None_iff in Hof. lia.
Qed.

Lemma bigSetBytes_from (b : bytes) : forall acc,
  fold_left (fun acc x => acc * 256 + Z.of_N (Byte.to_N x)) b acc
  = acc * 256 ^ len b + bigSetBytes b.
Proof.
  unfold bigSetBytes.
  induction b as [|x l IH]; intros acc; cbn [fold_left].
  - unfold len. cbn. lia.
  - rewrite IH. rewrite (IH (0 * 256 + _)). rewrite len_cons.
    pose proof (len_nonneg l). rewrite Z.pow_add_r by lia. lia.
Qed.

Lemma bigSetBytes_cons x (b : bytes) :
  bigSetBytes (x :: b) = Z.of_N (Byte.to_N x) * 256 ^ len b + bigSetBytes b.
Proof. unfold bigSetBytes at 1. cbn [fold_left]. rewrite bigSetBytes_from. lia. Qed.

Lemma bigSetBytes_nonneg (b : bytes) : 0 <= bigSetBytes b.
Proof.
  induction b as [|x l IH]; [unfold bigSetBytes; cbn; lia|].
  rewrite bigSetBytes_cons. pose proof (len_nonneg l).
  assert (0 <= 256 ^ len l) by (apply Z.pow_nonneg; lia). nia.
Qed.

Lemma bigBytesAux_value fuel : forall n acc,
  0 <= n < 2 ^ Z.of_nat fuel ->
  bigSetBytes (bigBytesAux fuel n acc) = n * 256 ^ len acc + bigSetBytes acc.
Proof.
  induction fuel as [|fuel IH]; intros n acc Hn; cbn [bigBytesAux].
  - cbn in Hn. assert (n = 0) by lia. subst n. lia.
  - destruct (n =? 0) eqn:Hz; [apply Z.eqb_eq in Hz; subst n; lia|].
    apply Z.eqb_neq in Hz.
    rewrite IH.
    + rewrite bigSetBytes_cons, byteOfZ_value, len_cons.
      pose proof (len_nonneg acc). rewrite Z.pow_add_r by lia.
      pose proof (Z.div_mod n 256 ltac:(lia)). nia.
    + rewrite Nat2Z.inj_succ, Z.pow_succ_r in Hn by lia. split.
      * apply Z.div_pos; lia.
      * apply Z.div_lt_upper_bound; lia.
Qed.

(** Decoding what [Bytes] encodes gives the absolute value back. *)
Lemma bigSetBytes_bigBytes z : bigSetBytes (bigBytes z) = Z.abs z.
Proof.
  unfold bigBytes. rewrite bigBytesAux_value.
  - unfold len, bigSetBytes. cbn. lia.
  - split; [lia|].
    rewrite Nat2Z.inj_add, Z2Nat.id by apply Z.log2_nonneg.
    destruct (Z.eq_dec (Z.abs z) 0) as [->|Hnz]; [cbn; lia|].
    apply Z.log2_spec. lia.
Qed.

Section Builders.

Context {W : Type} `{VMHost W}.

(** X5.  The classification looks at the destination only through its
    shard, fails exactly when the data does not parse, and puts every
    call to the shard of the contract in SyncExecution, built-in or not;
    AsyncBuiltinFunc and a nil error are only given across shards. *)
Theorem classification_by_shard destination data (w : W) mode err :
  determineExecutionMode destination data w = (mode, err) ->
  (forall destination',
      GetShardOfAddress w destination' = GetShardOfAddress w destination ->
      determineExecutionMode destination' data w = (mode, err))
  /\ (err = None <->
      exists function arguments,
        ParseData (string_of_list_byte data) = inr (function, arguments))
  /\ (mode = SyncExecution <->
      err = None
      /\ GetShardOfAddress w (GetSCAddress w) = GetShardOfAddress w destination)
  /\ (mode = AsyncBuiltinFunc ->
      err = None
      /\ GetShardOfAddress w (GetSCAddress w) <> GetShardOfAddress w destination).
Proof.
  unfold determineExecutionMode. intros Hrun. split.
  { intros destination' Hshard. rewrite Hshard. exact Hrun. }
  destruct (ParseData (string_of_list_byte data)) as [e|[function arguments]].
  { injection Hrun as <- <-. split; [|split].
    - split; [discriminate | intros (f & a & [=])].
    - split; [discriminate | intros [[=] _]].
    - discriminate. }
  destruct (Z.eqb_spec (GetShardOfAddress w (GetSCAddress w))
                       (GetShardOfAddress w destination)) as [Hsame|Hdiff];
    cbn zeta in Hrun.
  - injection Hrun as <- <-. split; [|split].
    + split; [eauto | reflexivity].
    + split; [auto | reflexivity].
    + discriminate.
  - destruct (IsBuiltinFunctionName function); injection Hrun as <- <-;
      (split; [|split]);
      try (split; [eauto | reflexivity]);
      try (split; [discriminate | intros [_ Heq]; contradiction]);
      try discriminate; auto.
Qed.

(** X6.  The forward call input is built exactly by taking the step fee
    off the gas limit of the call: the gas it provides is positive and
    below the limit by [AsyncCallStep], the call goes from the contract
    to the destination as an AsynchronousCall, and the value moved is the
    natural number the value bytes encode. *)
Theorem forward_input_pays_step_fee asyncCall (w : W) input :
  isUint64 (GasLimit asyncCall) -> 0 <= AsyncCallStep ->
  createSyncCallInput asyncCall w = inr input ->
  GasProvided input = GasLimit asyncCall - AsyncCallStep
  /\ 0 < GasProvided input <= GasLimit asyncCall
  /\ CallType input = AsynchronousCall
  /\ vmcommon.CallerAddr input = GetSCAddress w
  /\ RecipientAddr input = Destination asyncCall
  /\ CallValue input = bigSetBytes (ValueBytes asyncCall)
  /\ 0 <= CallValue input
  /\ ParseData (string_of_list_byte (Data asyncCall))
     = inr (Function input, Arguments input).
Proof.
  intros Hlimit Hstep. unfold createSyncCallInput.
  destruct (ParseData (string_of_list_byte (Data asyncCall))) as [e|[f a]];
    [discriminate|].
  destruct (Z.leb_spec (GasLimit asyncCall) AsyncCallStep) as [Hle|Hgt];
    [discriminate|].
  intros [= <-]. cbn.
  unfold isUint64 in Hlimit.
  rewrite wrap64_small by (unfold isUint64; lia).
  repeat split; try lia. apply bigSetBytes_nonneg.
Qed.

(** X7.  The callback always receives at least one argument, and the
    first one decodes to the return code of the forward call (it is the
    empty byte string when the code is Ok).  With a nil forward error the
    return data follow, entry by entry; with an error the return message
    follows, alone. *)
Theorem callback_arguments_carry_return_code
    asyncCall vmOutput destinationErr (w : W) input :
  0 <= ReturnCode vmOutput ->
  createSyncCallbackInput asyncCall vmOutput destinationErr w = inr input ->
  exists first rest,
    Arguments input = first :: rest
    /\ bigSetBytes first = ReturnCode vmOutput
    /\ (ReturnCode vmOutput = Ok -> first = [])
    /\ (destinationErr = None -> rest = ReturnData vmOutput)
    /\ (destinationErr <> None ->
        rest = [list_byte_of_string (ReturnMessage vmOutput)]).
Proof.
  intros Hrc. unfold createSyncCallbackInput.
  destruct (_ <=? _); [discriminate|]. intros [= <-]. cbn [Arguments].
  exists (bigBytes (ReturnCode vmOutput)).
  exists (match destinationErr with
          | None => ReturnData vmOutput
          | Some _ => [list_byte_of_string (ReturnMessage vmOutput)]
          end).
  split; [unfold callbackArguments; destruct destinationErr; reflexivity|].
  split; [rewrite bigSetBytes_bigBytes; lia|].
  split; [intros ->; reflexivity|].
  split; [intros ->; reflexivity|].
  destruct destinationErr; [reflexivity | contradiction].
Qed.

End Builders.

Lemma classification_by_shard_witness :
  determineExecutionMode [x01; x05] (list_byte_of_string "ESDTTransfer") 1000
  = (SyncExecution, None).
Proof.
  assert (Hrun : determineExecutionMode [x01] (list_byte_of_string "ESDTTransfer") 1000
                 = (SyncExecution, None)) by reflexivity.
  apply (proj1 (classification_by_shard _ _ _ _ _ Hrun)). reflexivity.
Defined.

Lemma forward_input_pays_step_fee_witness :
  exists input,
    createSyncCallInput (demoCall [x02] "pay" [x01; x00] 0 1000 0) 5000 = inr input
    /\ GasProvided input = 990
    /\ CallValue input = 256.
Proof.
  eassert (Hrun : createSyncCallInput (demoCall [x02] "pay" [x01; x00] 0 1000 0) 5000
                  = inr _) by reflexivity.
  assert (Hlimit : isUint64 (GasLimit (demoCall [x02] "pay" [x01; x00] 0 1000 0)))
    by (unfold isUint64; cbn; lia).
  assert (Hstep : 0 <= AsyncCallStep (W := Z)) by (cbn; lia).
  destruct (forward_input_pays_step_fee _ _ _ Hlimit Hstep Hrun)
    as (Hgas & _ & _ & _ & _ & Hvalue & _).
  eexists. split; [exact Hrun|]. split; [exact Hgas | exact Hvalue].
Defined.

Lemma callback_arguments_carry_return_code_witness :
  exists input first rest,
    createSyncCallbackInput (demoCall [x02] "pay" [] 0 1000 0)
                            (mkVMOutput [[x2a]] 7 "failed" 500) None 5000
    = inr input
    /\ Arguments input = first :: rest
    /\ bigSetBytes first = 7.
Proof.
  eassert (Hrun : createSyncCallbackInput (demoCall [x02] "pay" [] 0 1000 0)
                    (mkVMOutput [[x2a]] 7 "failed" 500) None 5000 = inr _)
    by reflexivity.
  assert (Hrc : 0 <= ReturnCode (mkVMOutput [[x2a]] 7 "failed" 500)) by (cbn; lia).
  destruct (callback_arguments_carry_return_code _ _ _ _ _ Hrc Hrun)
    as (first & rest & Hargs & Hdecode & _).
  eexists. exists first, rest.
  split; [exact Hrun|]. split; [exact Hargs | exact Hdecode].
Defined.

(** ** The per-call executor, case by case *)

Section PerCallCases.

Context {W : Type} `{VMHost W}.

Lemma returnsOnly_ret {A} (Q : A -> Prop) a : Q a -> returnsOnly (W := W) Q (ret a).
Proof. intros HQ h a' h' [= <- _]. exact HQ. Qed.

Lemma returnsOnly_panic {A} (Q : A -> Prop) : returnsOnly (W := W) Q panic.
Proof. intros h a h' [=]. Qed.

Lemma returnsOnly_bind {A B} (Q : B -> Prop) (m : M W A) (k : A -> M W B) :
  (forall a, returnsOnly Q (k a)) -> returnsOnly Q (bind m k).
Proof.
  intros Hk h b h'. unfold bind. destruct (m h) as [[a h1]|]; [|discriminate].
  apply Hk.
Qed.

Lemma executeAsyncCall_returns asyncCall syncExecutionOnly :
  returnsOnly (W := W)
    (fun res : AsyncCall * option Error =>
       fst res = asyncCall \/ exists rc, fst res = UpdateStatus rc asyncCall)
    (executeAsyncCall asyncCall syncExecutionOnly).
Proof.
  unfold executeAsyncCall.
  repeat first
    [ apply returnsOnly_ret; cbn [fst]; solve [eauto]
    | apply returnsOnly_panic
    | apply returnsOnly_bind; intros ?
    | match goal with
      | |- returnsOnly _ (match ?x with _ => _ end) => destruct x
      end ].
Qed.

(** X8.  The per-call executor writes nothing to a call but its status,
    and never sets a status back to Pending: the call it leaves is the
    call it was given, or that call with the status given by a return
    code. *)
Theorem executeAsyncCall_writes_status_only
    asyncCall syncExecutionOnly (h : Host W) asyncCall' err h' :
  executeAsyncCall asyncCall syncExecutionOnly h = Some ((asyncCall', err), h') ->
  setStatus (Status asyncCall) asyncCall' = asyncCall
  /\ (asyncCall' = asyncCall
      \/ Status asyncCall' = ResolvedOk \/ Status asyncCall' = ResolvedFailed).
Proof.
  intros Hrun. apply executeAsyncCall_returns in Hrun. cbn [fst] in Hrun.
  destruct Hrun as [->|[rc ->]].
  - split; [destruct asyncCall; reflexivity | now left].
  - unfold UpdateStatus. destruct (rc =? Ok); destruct asyncCall; cbn; auto.
Qed.

(** X9.  In the sweep that allows no cross-shard call, a call that is
    not for the shard of the contract is passed over: the executor
    returns success and leaves the call and the host as they were. *)
Theorem sync_only_skips_remote_calls asyncCall (h : Host W) mode :
  determineAsyncCallExecutionMode asyncCall (world h) = (mode, None) ->
  mode <> SyncExecution ->
  executeAsyncCall asyncCall true h = Some ((asyncCall, None), h).
Proof.
  intros Hmode Hne. unfold executeAsyncCall, bind, reads. rewrite Hmode.
  destruct mode; [contradiction | reflexivity | reflexivity].
Qed.

(** X10.  For a call to the shard of the contract the executor never
    returns an error: when it returns, the forward call has run first,
    the status of the call is ResolvedOk or ResolvedFailed by the return
    code of the forward call, whatever followed. *)
Theorem same_shard_call_is_resolved
    asyncCall syncExecutionOnly (h : Host W) asyncCall' err h' :
  determineAsyncCallExecutionMode asyncCall (world h) = (SyncExecution, None) ->
  executeAsyncCall asyncCall syncExecutionOnly h = Some ((asyncCall', err), h') ->
  err = None
  /\ Status asyncCall' <> Pending
  /\ exists input rest,
      createSyncCallInput asyncCall (world h) = inr input
      /\ asyncCall'
         = UpdateStatus (ReturnCode (fst (fst (ExecuteOnDestContext input (world h)))))
                        asyncCall
      /\ trace h' = trace h ++ EvExecuteOnDestContext input :: rest.
Proof.
  intros Hmode. unfold executeAsyncCall, bind at 1, reads at 1. rewrite Hmode.
  cbn [modeEqb]. unfold bind at 1.
  destruct (createSyncCallInput asyncCall (world h)) as [e|input] eqn:Hin.
  { unfold executeSyncCall, bind, reads, ret. rewrite Hin. discriminate. }
  rewrite (executeSyncCall_runs _ _ _ Hin).
  destruct (ExecuteOnDestContext input (world h)) as [[out fwdErr] w1] eqn:Hexec.
  cbn [fst snd]. unfold bind at 1.
  destruct (executeSyncCallback _ out fwdErr _) as [[[cbOut cbErr] h2]|] eqn:Hcb;
    [|discriminate].
  unfold bind at 1.
  destruct (finishSyncExecution cbOut cbErr h2) as [[[] h3]|] eqn:Hfin; [|discriminate].
  intros [= <- <- <-].
  destruct (emits_executeSyncCallback _ _ _ _ _ _ Hcb) as (evs1 & Ht1 & _).
  destruct (emits_finishSyncExecution _ _ _ _ _ Hfin) as (evs2 & Ht2 & _).
  split; [reflexivity|]. split.
  { unfold UpdateStatus. destruct (_ =? _); discriminate. }
  exists input, (evs1 ++ evs2). split; [reflexivity|]. rewrite Hexec.
  split; [reflexivity|].
  rewrite Ht2, Ht1. cbn [trace]. rewrite <- !app_assoc. reflexivity.
Qed.

End PerCallCases.

Section PerCallRemote.

Context {W : Type} `{VMHost W}.

(** X11.  A remote call that is no built-in is, in the second sweep,
    turned into one transfer carrying its destination, gas limit, locked
    gas, value and data, sent by the contract as an AsynchronousCall; the
    call itself is left as it was, still pending.  If the output refuses
    the transfer, all the gas then left is used up, the execution is
    marked failed, and the error is returned. *)
Theorem unknown_call_is_emitted asyncCall (h : Host W) err w1 :
  determineAsyncCallExecutionMode asyncCall (world h) = (AsyncUnknown, None) ->
  let t := {| trDestination := Destination asyncCall;
              trSender := GetSCAddress (world h);
              trGasLimit := GasLimit asyncCall;
              trGasLocked := GasLocked asyncCall;
              trValue := bigSetBytes (ValueBytes asyncCall);
              trData := Data asyncCall;
              trCallType := AsynchronousCall |} in
  Transfer t (world h) = (err, w1) ->
  executeAsyncCall asyncCall false h
  = Some ((asyncCall, err),
          match err with
          | None => mkHost w1 (trace h ++ [EvTransfer t])
          | Some e =>
              mkHost (FailExecution e (UseGas (GasLeft w1) w1))
                     (trace h ++ [EvTransfer t; EvUseGas (GasLeft w1);
                                  EvFailExecution e])
          end).
Proof.
  intros Hmode t Htransfer.
  unfold executeAsyncCall, bind at 1, reads at 1. rewrite Hmode. cbn [modeEqb].
  unfold bind at 1, sendAsyncCallCrossShard, bind at 1, reads at 1.
  unfold bind at 1, call. cbn [world trace]. fold t. rewrite Htransfer.
  destruct err as [e|].
  - unfold bind, reads, call_, ret. cbn [world trace].
    rewrite <- !app_assoc. reflexivity.
  - reflexivity.
Qed.

(** X12.  A remote built-in whose gas limit does not exceed the step fee
    is not run: the executor returns NotEnoughGas and leaves the call and
    the host as they were. *)
Theorem remote_builtin_low_gas_is_an_error asyncCall (h : Host W) :
  determineAsyncCallExecutionMode asyncCall (world h) = (AsyncBuiltinFunc, None) ->
  GasLimit asyncCall <= AsyncCallStep ->
  executeAsyncCall asyncCall false h = Some ((asyncCall, Some ErrNotEnoughGas), h).
Proof.
  intros Hmode Hgas.
  unfold executeAsyncCall, bind at 1, reads at 1. rewrite Hmode. cbn [modeEqb].
  unfold bind. rewrite (executeSyncCall_low_gas _ _ _ Hmode Hgas). reflexivity.
Qed.

(** X13.  A remote built-in that runs and returns Ok, or returns an
    error, is run once and gets no callback: the call stays as it was,
    pending, and the executor returns the error of the run, nil or not. *)
Theorem remote_builtin_without_callback
    asyncCall (h : Host W) input vmOutput err w1 :
  determineAsyncCallExecutionMode asyncCall (world h) = (AsyncBuiltinFunc, None) ->
  createSyncCallInput asyncCall (world h) = inr input ->
  ExecuteOnDestContext input (world h) = (vmOutput, err, w1) ->
  err <> None \/ ReturnCode vmOutput = Ok ->
  executeAsyncCall asyncCall false h
  = Some ((asyncCall, err),
          mkHost w1 (trace h ++ [EvExecuteOnDestContext input])).
Proof.
  intros Hmode Hin Hrun Hcase.
  unfold executeAsyncCall, bind at 1, reads at 1. rewrite Hmode. cbn [modeEqb].
  unfold bind at 1. rewrite (executeSyncCall_runs _ _ _ Hin), Hrun. cbn [fst snd].
  destruct err as [e|]; [reflexivity|].
  destruct Hcase as [Hcase| ->]; [contradiction|]. reflexivity.
Qed.

(** X14.  For a call to the shard of the contract whose callback runs:
    the executor calls the executor twice, forward call then callback,
    and returns success.  If the callback returns an error, the gas
    provided is zeroed, the return message of the callback's VMOutput is
    published and two finish entries are appended, its return code as a
    string and the current transaction hash; if it returns none, nothing
    more is done. *)
Theorem callback_outcome_is_published
    asyncCall syncExecutionOnly (h : Host W)
    input vmOutput forwardErr w1 callbackInput callbackOutput callbackErr w2 :
  determineAsyncCallExecutionMode asyncCall (world h) = (SyncExecution, None) ->
  createSyncCallInput asyncCall (world h) = inr input ->
  ExecuteOnDestContext input (world h) = (vmOutput, forwardErr, w1) ->
  createSyncCallbackInput (UpdateStatus (ReturnCode vmOutput) asyncCall)
                          vmOutput forwardErr w1
  = inr callbackInput ->
  ExecuteOnDestContext callbackInput w1 = (callbackOutput, callbackErr, w2) ->
  let code := list_byte_of_string (ReturnCodeString (ReturnCode callbackOutput)) in
  let w3 := SetVMInputGasProvided 0 w2 in
  let w4 := SetReturnMessage (ReturnMessage callbackOutput) w3 in
  let w5 := Finish code w4 in
  executeAsyncCall asyncCall syncExecutionOnly h
  = Some ((UpdateStatus (ReturnCode vmOutput) asyncCall, None),
          match callbackErr with
          | None =>
              mkHost w2 (trace h ++ [EvExecuteOnDestContext input;
                                     EvExecuteOnDestContext callbackInput])
          | Some _ =>
              mkHost (Finish (GetCurrentTxHash w5) w5)
                     (trace h ++ [EvExecuteOnDestContext input;
                                  EvExecuteOnDestContext callbackInput;
                                  EvSetGasProvided 0;
                                  EvSetReturnMessage (ReturnMessage callbackOutput);
                                  EvFinish code;
                                  EvFinish (GetCurrentTxHash w5)])
          end).
Proof.
  intros Hmode Hin Hrun Hcb Hcbrun code w3 w4 w5.
  unfold executeAsyncCall, bind at 1, reads at 1. rewrite Hmode. cbn [modeEqb].
  unfold bind at 1. rewrite (executeSyncCall_runs _ _ _ Hin), Hrun. cbn [fst snd].
  unfold bind at 1, executeSyncCallback, bind at 1, reads at 1. cbn [world].
  rewrite Hcb. unfold bind at 1, executeOnDestContext, call. cbn [world trace].
  rewrite Hcbrun. unfold ret at 1.
  destruct callbackErr as [e|].
  - unfold finishSyncExecution, bind, call_, reads, ret. cbn [world trace].
    rewrite <- !app_assoc. reflexivity.
  - unfold finishSyncExecution, bind, ret. rewrite <- !app_assoc. reflexivity.
Qed.

End PerCallRemote.

Lemma executeAsyncCall_writes_status_only_witness :
  exists c' h',
    executeAsyncCall (demoCall [x01] "run" [] 0 1000 0) true (mkHost 5000 [])
    = Some ((c', None), h')
    /\ setStatus Pending c' = demoCall [x01] "run" [] 0 1000 0.
Proof.
  eassert (Hrun : executeAsyncCall (demoCall [x01] "run" [] 0 1000 0) true (mkHost 5000 [])
                  = Some (_, None, _)) by (vm_compute; reflexivity).
  do 2 eexists. split; [exact Hrun|].
  exact (proj1 (executeAsyncCall_writes_status_only _ _ _ _ _ _ Hrun)).
Defined.

Lemma sync_only_skips_remote_calls_witness :
  executeAsyncCall (demoCall [x02] "ESDTTransfer" [] 0 1000 0) true (mkHost 5000 [])
  = Some ((demoCall [x02] "ESDTTransfer" [] 0 1000 0, None), mkHost 5000 []).
Proof.
  apply (sync_only_skips_remote_calls _ (mkHost 5000 []) AsyncBuiltinFunc).
  - reflexivity.
  - discriminate.
Defined.

Lemma same_shard_call_is_resolved_witness :
  exists c' h',
    executeAsyncCall (demoCall [x01] "run" [xc8] 0 1000 0) true (mkHost 5000 [])
    = Some ((c', None), h')
    /\ Status c' <> Pending.
Proof.
  eassert (Hrun : executeAsyncCall (demoCall [x01] "run" [xc8] 0 1000 0) true
                    (mkHost 5000 []) = Some (_, _, _)) by (vm_compute; reflexivity).
  assert (Hmode : determineAsyncCallExecutionMode
                    (demoCall [x01] "run" [xc8] 0 1000 0) (world (mkHost 5000 []))
                  = (SyncExecution, None)) by reflexivity.
  destruct (same_shard_call_is_resolved _ _ _ _ _ _ Hmode Hrun) as (Herr & Hstatus & _).
  subst.
  do 2 eexists. split; [exact Hrun | exact Hstatus].
Defined.

Lemma unknown_call_is_emitted_witness :
  exists t,
    executeAsyncCall (demoCall [x02] "pay" [x05] 0 1000 7) false (mkHost 5000 [])
    = Some ((demoCall [x02] "pay" [x05] 0 1000 7, None), mkHost 5000 [EvTransfer t])
    /\ trGasLimit t = 1000 /\ trGasLocked t = 7 /\ trValue t = 5.
Proof.
  eexists. split.
  - exact (unknown_call_is_emitted (demoCall [x02] "pay" [x05] 0 1000 7)
             (mkHost 5000 []) None 5000 eq_refl eq_refl).
  - repeat split.
Defined.

Lemma remote_builtin_low_gas_is_an_error_witness :
  executeAsyncCall (demoCall [x02] "ESDTTransfer" [] 0 10 0) false (mkHost 5000 [])
  = Some ((demoCall [x02] "ESDTTransfer" [] 0 10 0, Some ErrNotEnoughGas), mkHost 5000 []).
Proof.
  apply remote_builtin_low_gas_is_an_error.
  - reflexivity.
  - cbn. lia.
Defined.

Lemma remote_builtin_without_callback_witness :
  exists input,
    executeAsyncCall (demoCall [x02] "ESDTTransfer" [x05] 0 1000 0) false (mkHost 5000 [])
    = Some ((demoCall [x02] "ESDTTransfer" [x05] 0 1000 0, None),
            mkHost 5000 [EvExecuteOnDestContext input]).
Proof.
  eexists.
  eapply (remote_builtin_without_callback
            (demoCall [x02] "ESDTTransfer" [x05] 0 1000 0) (mkHost 5000 [])).
  - reflexivity.
  - reflexivity.
  - reflexivity.
  - right. reflexivity.
Defined.

Lemma callback_outcome_is_published_witness :
  exists forwardInput callbackInput,
    executeAsyncCall (demoCall [x01] "run" [] 0 1000 0) true (mkHost 5000 [])
    = Some ((UpdateStatus Ok (demoCall [x01] "run" [] 0 1000 0), None),
            mkHost 5000 [EvExecuteOnDestContext forwardInput;
                         EvExecuteOnDestContext callbackInput]).
Proof.
  eassert (Hin : createSyncCallInput (demoCall [x01] "run" [] 0 1000 0)
                   (world (mkHost 5000 [])) = inr _) by (vm_compute; reflexivity).
  match type of Hin with
  | _ = inr ?input =>
      eassert (Hrun : ExecuteOnDestContext input (world (mkHost 5000 []))
                      = (_, None, _)) by (vm_compute; reflexivity)
  end.
  match type of Hrun with
  | _ = (?out, _, ?w1) =>
      eassert (Hcb : createSyncCallbackInput
                       (UpdateStatus (ReturnCode out) (demoCall [x01] "run" [] 0 1000 0))
                       out None w1 = inr _) by (vm_compute; reflexivity)
  end.
  match type of Hcb with
  | createSyncCallbackInput _ _ _ ?w1 = inr ?cbInput =>
      eassert (Hcbrun : ExecuteOnDestContext cbInput w1 = (_, None, _))
        by (vm_compute; reflexivity)
  end.
  pose proof (callback_outcome_is_published
                (demoCall [x01] "run" [] 0 1000 0) true (mkHost 5000 [])
                _ _ _ _ _ _ _ _ eq_refl Hin Hrun Hcb Hcbrun) as Hw.
  cbv zeta in Hw. do 2 eexists. exact Hw.
Defined.

(** ** The group executor and the sweeps *)

Section GroupProperties.

Context {W : Type} `{VMHost W}.

Lemma emits_sync_executeAsyncCall c :
  emits (W := W) isSyncEvent (executeAsyncCall c true).
Proof.
  unfold executeAsyncCall. apply emits_bind; [apply emits_reads|].
  intros [mode err]. destruct err as [e|]; [apply emits_ret|].
  destruct mode; cbn [modeEqb]; [|apply emits_ret..].
  unfold executeSyncCall, executeSyncCallback, finishSyncExecution,
    executeOnDestContext.
  repeat emits_step.
Qed.

Lemma emits_sync_executeAsyncCalls calls :
  emits (W := W) isSyncEvent (executeAsyncCalls calls true).
Proof.
  induction calls as [|c l IH]; cbn [executeAsyncCalls].
  - apply emits_ret.
  - pose proof (emits_sync_executeAsyncCall c). repeat (solve [auto] || emits_step).
Qed.

(** X15.  The group executor, in the sweep that allows no cross-shard
    call, never appends a transfer, never uses up the gas, never marks
    the execution failed and never writes to storage, whatever the calls
    of the group are. *)
Theorem sync_sweep_emits_nothing_cross_shard group (h : Host W) res h' :
  executeAsyncCallGroup group true h = Some (res, h') ->
  exists evs, trace h' = trace h ++ evs /\ Forall isSyncEvent evs.
Proof.
  revert h res h'.
  change (emits isSyncEvent (executeAsyncCallGroup group true)).
  pose proof (emits_sync_executeAsyncCalls (AsyncCalls group)) as Hcalls.
  unfold executeAsyncCallGroup, executeAsyncCallGroupCallback.
  repeat (solve [auto] || emits_step).
Qed.

Lemma executeAsyncCalls_stops pre : forall (h : Host W) syncExecutionOnly
    pre' h1 c post c' e h2,
  executeAsyncCalls pre syncExecutionOnly h = Some ((pre', None), h1) ->
  executeAsyncCall c syncExecutionOnly h1 = Some ((c', Some e), h2) ->
  executeAsyncCalls (pre ++ c :: post) syncExecutionOnly h
  = Some ((pre' ++ c' :: post, Some e), h2).
Proof.
  induction pre as [|a pre IH]; intros h syncExecutionOnly pre' h1 c post c' e h2;
    cbn [executeAsyncCalls app].
  - intros [= <- <-] Hc. unfold bind. rewrite Hc. reflexivity.
  - unfold bind at 1 3.
    destruct (executeAsyncCall a syncExecutionOnly h) as [[[a' ea] ha]|]; [|discriminate].
    destruct ea as [ea|]; [discriminate|].
    unfold bind at 1 2.
    destruct (executeAsyncCalls pre syncExecutionOnly ha) as [[[pre0 e0] h0]|] eqn:Hpre;
      [|discriminate].
    intros [= <- -> <-] Hc.
    rewrite (IH _ _ _ _ _ post _ _ _ Hpre Hc). reflexivity.
Qed.

(** X16.  When a call of the group fails, the calls before it having
    been executed without error, the group executor returns that error
    at once, in the state the failing call left: the calls after it are
    untouched and not executed, no call is pruned, the group callback is
    not invoked, and the group keeps its identifier and callback. *)
Theorem group_error_stops_without_pruning
    group syncExecutionOnly (h : Host W) pre c post pre' h1 c' e h2 :
  AsyncCalls group = pre ++ c :: post ->
  executeAsyncCalls pre syncExecutionOnly h = Some ((pre', None), h1) ->
  executeAsyncCall c syncExecutionOnly h1 = Some ((c', Some e), h2) ->
  executeAsyncCallGroup group syncExecutionOnly h
  = Some ((mkAsyncCallGroup (Callback group) (Identifier group) (pre' ++ c' :: post),
           Some e), h2).
Proof.
  intros Hcalls Hpre Hc. unfold executeAsyncCallGroup, bind.
  rewrite Hcalls, (executeAsyncCalls_stops _ _ _ _ _ _ post _ _ _ Hpre Hc).
  reflexivity.
Qed.

End GroupProperties.

Lemma sync_sweep_emits_nothing_cross_shard_witness :
  exists res h',
    executeAsyncCallGroup
      (mkAsyncCallGroup "" "batch"
         [demoCall [x02] "pay" [] 0 1000 0; demoCall [x01] "run" [] 0 1000 0])
      true (mkHost 5000 [])
    = Some (res, h')
    /\ Forall isSyncEvent (trace h').
Proof.
  eassert (Hrun : executeAsyncCallGroup
                    (mkAsyncCallGroup "" "batch"
                       [demoCall [x02] "pay" [] 0 1000 0;
                        demoCall [x01] "run" [] 0 1000 0])
                    true (mkHost 5000 []) = Some (_, _)) by (vm_compute; reflexivity).
  destruct (sync_sweep_emits_nothing_cross_shard _ _ _ _ Hrun) as (evs & Ht & Hall).
  do 2 eexists. split; [exact Hrun|]. rewrite Ht. exact Hall.
Defined.

Lemma group_error_stops_without_pruning_witness :
  exists first' h',
    executeAsyncCallGroup
      (mkAsyncCallGroup "" "batch"
         [demoCall [x01] "run" [] 0 1000 0; demoCall [x02] "" [] 0 1000 0;
          demoCall [x01] "run" [] 0 1000 0])
      true (mkHost 5000 [])
    = Some ((mkAsyncCallGroup "" "batch"
               [first'; demoCall [x02] "" [] 0 1000 0; demoCall [x01] "run" [] 0 1000 0],
             Some (ErrExternal "invalid call data")), h').
Proof.
  eassert (Hpre : executeAsyncCalls [demoCall [x01] "run" [] 0 1000 0] true
                    (mkHost 5000 []) = Some (([_], None), _))
    by (vm_compute; reflexivity).
  match type of Hpre with
  | _ = Some (_, ?h1) =>
      eassert (Hc : executeAsyncCall (demoCall [x02] "" [] 0 1000 0) true h1
                    = Some ((_, Some (ErrExternal "invalid call data")), _))
        by (vm_compute; reflexivity)
  end.
  do 2 eexists.
  exact (group_error_stops_without_pruning
           (mkAsyncCallGroup "" "batch"
              [demoCall [x01] "run" [] 0 1000 0; demoCall [x02] "" [] 0 1000 0;
               demoCall [x01] "run" [] 0 1000 0])
           true (mkHost 5000 []) [demoCall [x01] "run" [] 0 1000 0]
           (demoCall [x02] "" [] 0 1000 0) [demoCall [x01] "run" [] 0 1000 0]
           _ _ _ _ _ eq_refl Hpre Hc).
Defined.

(** ** The driver and the codec *)

Section DriverProperties.

Context {W : Type} `{VMHost W}.

(** X17.  In any run of the driver, with or without error, the driver
    writes to storage at most once.  When it returns an error, either it
    has written nothing, or the error is the one the storage returned
    for that one write. *)
Theorem driver_writes_at_most_once (ctx : AsyncContext) (h : Host W) ctx' err h' :
  executeCurrentAsyncContext ctx h = Some ((ctx', err), h') ->
  exists evs,
    trace h' = trace h ++ evs
    /\ (List.length (storageWrites evs) <= 1)%nat
    /\ forall e, err = Some e ->
         storageWrites evs = []
         \/ exists key data w,
             storageWrites evs = [(key, data)]
             /\ fst (SetStorage key data w) = Some e.
Proof.
  intros Hrun. apply driver_run in Hrun as (r' & Hrun & ->).
  pose proof (proj2 (wfRef_newRef ctx)) as Hval.
  destruct (driverRef_cases _ _ _ _ _ Hval Hrun) as (_ & evs & Ht & Hcases).
  exists evs. split; [exact Ht|].
  destruct Hcases as [[Hnone _]|(r4 & w & data & _ & _ & _ & _ & Hw & Herr & _)].
  - rewrite Hnone. split; [cbn; lia|]. intros e _. now left.
  - rewrite Hw. split; [cbn; lia|]. intros e He. right.
    exists (CustomStorageKey AsyncDataPrefix (GetPrevTxHash w)), data, w.
    split; [reflexivity|]. rewrite <- Herr. exact He.
Qed.


(** X19.  The codec writes nothing for a context without groups and
    nothing when the context cannot be encoded, returning the error of
    the encoder; otherwise it writes once, the encoded context at the key
    made of the prefix and the previous transaction hash, and returns
    what the storage returns. *)
Theorem codec_writes_encoded_context r (h : Host W) err h' :
  saveAsyncContext r h = Some (err, h') ->
  let key := AsyncDataPrefix ++ GetPrevTxHash (world h) in
  (groupSlice r = [] -> err = None /\ h' = h)
  /\ (forall e, groupSlice r <> [] -> Marshal (contextOf r) = inl e ->
                err = Some e /\ h' = h)
  /\ (forall data, groupSlice r <> [] -> Marshal (contextOf r) = inr data ->
                   err = fst (SetStorage key data (world h))
                   /\ world h' = snd (SetStorage key data (world h))
                   /\ trace h' = trace h ++ [EvSetStorage key data]).
Proof.
  intros Hrun key.
  apply saveAsyncContext_cases in Hrun
    as [(Hnil & -> & ->)|[(Hne & -> & e & Hm & ->)|(Hne & data & Hm & -> & ->)]].
  - split; [auto|]. split; intros; contradiction.
  - split; [intros; contradiction|]. split.
    + intros e' _ Hm'. rewrite Hm in Hm'. injection Hm' as <-. auto.
    + intros data _ Hm'. rewrite Hm in Hm'. discriminate.
  - split; [intros; contradiction|]. split.
    + intros e' _ Hm'. rewrite Hm in Hm'. discriminate.
    + intros data' _ Hm'. rewrite Hm in Hm'. injection Hm' as <-.
      cbn [world trace]. auto.
Qed.

End DriverProperties.

Lemma driver_writes_at_most_once_witness :
  exists ctx' h' evs,
    executeCurrentAsyncContext demoContextMixed (mkHost 5000 []) = Some ((ctx', None), h')
    /\ trace h' = evs
    /\ (List.length (storageWrites evs) <= 1)%nat.
Proof.
  eassert (Hrun : executeCurrentAsyncContext demoContextMixed (mkHost 5000 [])
                  = Some (_, None, _)) by (vm_compute; reflexivity).
  destruct (driver_writes_at_most_once _ _ _ _ _ Hrun) as (evs & Ht & Hle & _).
  do 3 eexists. split; [exact Hrun|]. split; [exact Ht|].
  cbn [trace app]. exact Hle.
Defined.


Lemma codec_writes_encoded_context_witness :
  exists err h',
    saveAsyncContext (newRef demoContext) (mkHost 1000 []) = Some (err, h')
    /\ trace h' = [EvSetStorage [x41; x70] (list_byte_of_string "group")].
Proof.
  eassert (Hrun : saveAsyncContext (newRef demoContext) (mkHost 1000 []) = Some (_, _))
    by (vm_compute; reflexivity).
  destruct (codec_writes_encoded_context _ _ _ _ Hrun) as (_ & _ & Hwrite).
  do 2 eexists. split; [exact Hrun|].
  destruct (Hwrite (list_byte_of_string "group")) as (_ & _ & Ht).
  - discriminate.
  - reflexivity.
  - exact Ht.
Defined.

Section ResidualCalls.

Context {W : Type} `{VMHost W}.

Lemma sweepAsync_slice snapshot : forall r (h : Host W) r' err h',
  sweepAsync snapshot r h = Some ((r', err), h') -> groupSlice r' = groupSlice r.
Proof.
  induction snapshot as [|p rest IH]; intros r h r' err h'; cbn [sweepAsync].
  - intros [= <- _ _]. reflexivity.
  - destruct (groupObjects r !! p) as [group|]; [|discriminate].
    unfold bind at 1.
    destruct (executeAsyncCallGroup group false h) as [[[group' e] h1]|]; [|discriminate].
    destruct e as [e|]; [intros [= <- _ _]; reflexivity|].
    intros Hrest. apply IH in Hrest. exact Hrest.
Qed.

(** A group object whose calls are all pending stays so through the
    second sweep: it is left alone or replaced by a pruned group. *)
Lemma sweepAsync_keeps_pending snapshot : forall r (h : Host W) r' h' (p : nat),
  sweepAsync snapshot r h = Some ((r', None), h') ->
  (forall g, groupObjects r !! p = Some g -> allPending g) ->
  forall g, groupObjects r' !! p = Some g -> allPending g.
Proof.
  induction snapshot as [|q rest IH]; intros r h r' h' p; cbn [sweepAsync].
  - intros [= <- _]. auto.
  - destruct (groupObjects r !! q) as [group|] eqn:Hq; [|discriminate].
    unfold bind at 1.
    destruct (executeAsyncCallGroup group false h) as [[[group' e] h1]|] eqn:Hrun;
      [|discriminate].
    destruct e as [e|]; [discriminate|].
    intros Hrest Hp. eapply IH; [exact Hrest|].
    cbn [groupObjects setObjects]. intros g Hg.
    destruct (Nat.eq_dec q p) as [->|Hne].
    + rewrite list_lookup_insert_eq in Hg
        by (apply lookup_lt_is_Some_1; eauto).
      injection Hg as <-. eapply executeAsyncCallGroup_prunes. exact Hrun.
    + rewrite list_lookup_insert_ne in Hg by exact Hne. auto.
Qed.

Lemma sweepAsync_prunes snapshot : forall r (h : Host W) r' h',
  sweepAsync snapshot r h = Some ((r', None), h') ->
  forall p g, In p snapshot -> groupObjects r' !! p = Some g -> allPending g.
Proof.
  induction snapshot as [|q rest IH]; intros r h r' h'; cbn [sweepAsync].
  - intros _ p g [].
  - destruct (groupObjects r !! q) as [group|] eqn:Hq; [|discriminate].
    unfold bind at 1.
    destruct (executeAsyncCallGroup group false h) as [[[group' e] h1]|] eqn:Hrun;
      [|discriminate].
    destruct e as [e|]; [discriminate|].
    intros Hrest p g [<-|Hin] Hg.
    + eapply (sweepAsync_keeps_pending _ _ _ _ _ q Hrest); [|exact Hg].
      cbn [groupObjects setObjects]. intros g0 Hg0.
      rewrite list_lookup_insert_eq in Hg0 by (apply lookup_lt_is_Some_1; eauto).
      injection Hg0 as <-. eapply executeAsyncCallGroup_prunes. exact Hrun.
    + eapply IH; eassumption.
Qed.

Lemma driverRef_success_inv r (h : Host W) r' h' :
  executeCurrentAsyncContextRef r h = Some ((r', None), h') ->
  (groupsOf r = [] /\ r' = r)
  \/ exists r3 h3 r4 h4,
      sweepAsync (groupSlice r3) r3 h3 = Some ((r4, None), h4)
      /\ r' = DeleteAsyncCallGroupByID LegacyAsyncCallGroupID r4.
Proof.
  unfold executeCurrentAsyncContextRef.
  destruct (contextIsCompleted (contextOf r)) eqn:Hdone.
  { intros [= <- _]. left. split; [|reflexivity].
    unfold contextIsCompleted in Hdone. cbn in Hdone. now destruct (groupsOf r). }
  unfold andThen at 1, bind at 1.
  destruct (setupAsyncCallsGas r h) as [[[r1 [e1|]] h1]|]; try discriminate.
  unfold andThen at 1, bind at 1.
  destruct (sweepSync (groupSlice r1) 0 r1 h1) as [[[r2 [e2|]] h2]|]; try discriminate.
  unfold andThen at 1, bind at 1.
  destruct (setupAsyncCallsGas r2 h2) as [[[r3 [e3|]] h3]|]; try discriminate.
  unfold andThen at 1, bind at 1.
  destruct (sweepAsync (groupSlice r3) r3 h3) as [[[r4 [e4|]] h4]|] eqn:Hsweep;
    try discriminate.
  unfold bind.
  destruct (saveAsyncContext _ h4) as [[e5 h5]|]; [|discriminate].
  intros [= <- _ _]. right. exists r3, h3, r4, h4. split; [exact Hsweep | reflexivity].
Qed.

(** X20.  When the driver returns without error, every call left in the
    context is pending: each group still in the context went through the
    second sweep, which prunes the calls that are resolved
    ([DeleteCompletedAsyncCalls] keeps the pending calls). *)
Theorem residual_calls_are_pending (ctx : AsyncContext) (h : Host W) ctx' h' :
  executeCurrentAsyncContext ctx h = Some ((ctx', None), h') ->
  Forall allPending (AsyncCallGroups ctx').
Proof.
  intros Hrun. apply driver_run in Hrun as (r' & Hrun & ->).
  apply driverRef_success_inv in Hrun
    as [(Hnil & ->)|(r3 & h3 & r4 & h4 & Hsweep & ->)].
  - unfold contextOf. cbn [AsyncCallGroups]. rewrite Hnil. constructor.
  - unfold contextOf. cbn [AsyncCallGroups].
    unfold groupsOf, DeleteAsyncCallGroupByID, setSlice. cbn [groupObjects groupSlice].
    apply List.Forall_forall. intros g Hg.
    apply list_elem_of_In, list_elem_of_omap in Hg as (p & Hp & Hlook).
    eapply (sweepAsync_prunes _ _ _ _ _ Hsweep p); [|exact Hlook].
    apply list_elem_of_In.
    rewrite <- (sweepAsync_slice _ _ _ _ _ _ Hsweep).
    eapply elem_of_sublist; [exact Hp | apply deleteByID_sublist].
Qed.

End ResidualCalls.

Lemma residual_calls_are_pending_witness :
  exists ctx' h',
    executeCurrentAsyncContext demoContextMixed (mkHost 5000 []) = Some ((ctx', None), h')
    /\ Forall allPending (AsyncCallGroups ctx').
Proof.
  eassert (Hrun : executeCurrentAsyncContext demoContextMixed (mkHost 5000 [])
                  = Some (_, None, _)) by (vm_compute; reflexivity).
  do 2 eexists. split; [exact Hrun|].
  exact (residual_calls_are_pending _ _ _ _ Hrun).
Defined.
